(** * wikidump_auto: a shallow embedding of [wikidump_auto.py]

    The program is a linear script of four stages (link resolver, fetcher,
    submitter, pruner) glued around three external services: an HTML page,
    the qBittorrent WebUI and the local filesystem.  The embedding keeps
    that shape: the pure parts (regular expressions, string tests, URL
    resolution) are functions, the effectful parts run in a small
    state-and-exception monad over an explicit world (filesystem, remote
    job list, logging calls, and the trace of external calls). *)

From Stdlib Require Import ZArith NArith Ascii String List Lia Bool.
From stdpp Require Import base option list sorting gmap.

Local Open Scope Z_scope.

(** ** Strings

    A Python [str] is a sequence of Unicode code points.  Code points are
    [N]; literals are written as Rocq strings and converted with [lit]. *)

Abbreviation pystr := (list N).

Fixpoint lit (s : string) : pystr :=
  match s with
  | EmptyString => []
  | String a s' => N_of_ascii a :: lit s'
  end.

Definition LF : N := 10%N.
Definition SLASH : N := 47%N.

(** [str.startswith] *)
Fixpoint startswith (s pre : pystr) {struct pre} : bool :=
  match pre, s with
  | [], _ => true
  | p :: pre', x :: s' => (x =? p)%N && startswith s' pre'
  | _ :: _, [] => false
  end.

(** [str.endswith] *)
Definition endswith (s suf : pystr) : bool :=
  startswith (rev s) (rev suf).

(** [os.path.basename] (posixpath): everything after the last slash. *)
Fixpoint basename (s : pystr) : pystr :=
  match s with
  | [] => []
  | x :: s' =>
      if existsb (N.eqb SLASH) s' then basename s'
      else if (x =? SLASH)%N then s' else x :: s'
  end.

(** ** Regular expressions

    The two patterns of the program use literals, [.], [\d], [*] applied
    to a single character class, [{8}] and [$]; the matcher below is a
    backtracking matcher for exactly this fragment of [re], with the
    [re.IGNORECASE] flag and the Unicode semantics of [str] patterns. *)

Module Re.

Inductive cls :=
| CLit (c : N)    (* a literal character *)
| CAny            (* [.] without DOTALL: anything but a line feed *)
| CDigit.         (* [\d] on str: any Unicode decimal digit *)

Inductive item :=
| One (k : cls)
| Many (k : cls)  (* [k*] *)
| Eol.            (* [$] without MULTILINE *)

Record pattern := Pattern { items : list item; ignorecase : bool }.

(** Zeros of the decimal-digit blocks of category Nd (Unicode 14.0, the
    table of CPython 3.11): a code point is a decimal digit iff it lies
    in [z, z+9] for one of these [z]. *)
Definition decimal_zeros : list N :=
  [ 0x30; 0x660; 0x6f0; 0x7c0; 0x966; 0x9e6; 0xa66; 0xae6; 0xb66; 0xbe6;
    0xc66; 0xce6; 0xd66; 0xde6; 0xe50; 0xed0; 0xf20; 0x1040; 0x1090;
    0x17e0; 0x1810; 0x1946; 0x19d0; 0x1a80; 0x1a90; 0x1b50; 0x1bb0;
    0x1c40; 0x1c50; 0xa620; 0xa8d0; 0xa900; 0xa9d0; 0xa9f0; 0xaa50;
    0xabf0; 0xff10; 0x104a0; 0x10d30; 0x11066; 0x110f0; 0x11136;
    0x111d0; 0x112f0; 0x11450; 0x114d0; 0x11650; 0x116c0; 0x11730;
    0x118e0; 0x11950; 0x11c50; 0x11d50; 0x11da0; 0x16a60; 0x16ac0;
    0x16b50; 0x1d7ce; 0x1d7d8; 0x1d7e2; 0x1d7ec; 0x1d7f6; 0x1e140;
    0x1e2f0; 0x1e950; 0x1fbf0 ]%N.

Definition unicode_isdecimal (x : N) : bool :=
  existsb (fun z => (z <=? x)%N && (x <=? z + 9)%N) decimal_zeros.

(** [_sre.unicode_iscased], on the alphabet of the patterns (ASCII). *)
Definition iscased (c : N) : bool :=
  ((0x41 <=? c)%N && (c <=? 0x5a)%N) || ((0x61 <=? c)%N && (c <=? 0x7a)%N).

(** [_sre.unicode_tolower], exact on every code point that is ASCII or
    whose lower case is ASCII (U+0130 and the Kelvin sign U+212A); the
    other code points are left alone, which cannot change a comparison
    with the lower case of an ASCII pattern letter. *)
Definition tolower (x : N) : N :=
  if ((0x41 <=? x)%N && (x <=? 0x5a)%N) then (x + 32)%N
  else if (x =? 0x130)%N then 0x69%N
  else if (x =? 0x212a)%N then 0x6b%N
  else x.

(** [sre_compile._ignorecase_fixes], restricted to ASCII keys: dotless
    i folds with [i], long s with [s]. *)
Definition ignorecase_fixes (lo : N) : list N :=
  if (lo =? 0x69)%N then [0x131%N]
  else if (lo =? 0x73)%N then [0x17f%N]
  else [].

Definition lit_match (ic : bool) (c x : N) : bool :=
  if ic && iscased c then
    let lo := tolower c in
    let y := tolower x in
    (y =? lo)%N || existsb (N.eqb y) (ignorecase_fixes lo)
  else (x =? c)%N.

Definition cls_match (ic : bool) (k : cls) (x : N) : bool :=
  match k with
  | CLit c => lit_match ic c x
  | CAny => negb (x =? LF)%N
  | CDigit => unicode_isdecimal x
  end.

(** [$]: at the end of the string, or just before a final line feed. *)
Definition at_end (s : pystr) : bool :=
  match s with
  | [] => true
  | [x] => (x =? LF)%N
  | _ => false
  end.

Fixpoint star_from (ok : N -> bool) (rest : pystr -> bool) (s : pystr) : bool :=
  rest s ||
  match s with
  | x :: s' => ok x && star_from ok rest s'
  | [] => false
  end.

(** Does the pattern match starting at the head of [s]? *)
Fixpoint match_items (ic : bool) (p : list item) (s : pystr) : bool :=
  match p with
  | [] => true
  | One k :: p' =>
      match s with
      | x :: s' => cls_match ic k x && match_items ic p' s'
      | [] => false
      end
  | Many k :: p' => star_from (cls_match ic k) (match_items ic p') s
  | Eol :: p' => at_end s && match_items ic p' s
  end.

(** [Pattern.match]: anchored at position 0; only truthiness is used. *)
Definition re_match (p : pattern) (s : pystr) : bool :=
  match_items (ignorecase p) (items p) s.

(** [Pattern.search]: the first position at which the pattern matches. *)
Fixpoint search_items (ic : bool) (p : list item) (s : pystr) : bool :=
  match_items ic p s ||
  match s with
  | [] => false
  | _ :: s' => search_items ic p s'
  end.

Definition re_search (p : pattern) (s : pystr) : bool :=
  search_items (ignorecase p) (items p) s.

Definition lits (s : string) : list item := map (fun c => One (CLit c)) (lit s).

Definition repeat_item (n : nat) (k : cls) : list item := repeat (One k) n.

End Re.

Definition META_URL : pystr := lit "https://meta.wikimedia.org/wiki/Data_dump_torrents".

(** The message of the [RuntimeError]; its hyphen is U+2011. *)
Definition NO_LINK_MESSAGE : pystr :=
  lit "Meta" ++ [0x2011%N] ++ lit "Wiki page did not contain expected enwiki torrent link.".

(** [re.compile(r"enwiki-.*pages-articles-multistream.*\.torrent$", re.I)] *)
Definition TORRENT_NAME_RE : Re.pattern :=
  Re.Pattern
    (Re.lits "enwiki-" ++ [Re.Many Re.CAny] ++
     Re.lits "pages-articles-multistream" ++ [Re.Many Re.CAny] ++
     Re.lits ".torrent" ++ [Re.Eol])
    true.

(** [re.compile(r"enwiki-\d{8}-pages-articles-multistream.*\.bz2$", re.I)] *)
Definition DUMP_FILE_RE : Re.pattern :=
  Re.Pattern
    (Re.lits "enwiki-" ++ Re.repeat_item 8 Re.CDigit ++
     Re.lits "-pages-articles-multistream" ++ [Re.Many Re.CAny] ++
     Re.lits ".bz2" ++ [Re.Eol])
    true.

(** ** HTML documents

    [BeautifulSoup(html, "html.parser")] is an external parser; a document
    is modelled by what the program reads from it: its tags in document
    order, each with a name and an attribute dictionary. *)

Record Tag := mkTag { tag_name : pystr; tag_attrs : gmap pystr pystr }.

(** [soup.find_all("a", href=True)] *)
Definition find_all_a_href (doc : list Tag) : list Tag :=
  filter (fun t => tag_name t = lit "a" /\ is_Some (tag_attrs t !! lit "href")) doc.

(** The three [return] statements of [latest_torrent_url]. *)
Definition absolutize (href : pystr) : pystr :=
  if startswith href (lit "//") then lit "https:" ++ href
  else if startswith href (lit "/") then lit "https://meta.wikimedia.org" ++ href
  else href.

(** The [for a in ...] loop of [latest_torrent_url]: [None] when the loop
    falls through to the [raise]. *)
Fixpoint scan_links (tags : list Tag) : option pystr :=
  match tags with
  | [] => None
  | a :: rest =>
      let href := default [] (tag_attrs a !! lit "href") in
      if Re.re_search TORRENT_NAME_RE href then Some (absolutize href)
      else scan_links rest
  end.

(** ** The world *)

Abbreviation bytes := (list N).

(** A path is the list of its components below the root; [[]] is the
    root directory.  Paths are resolved (no symbolic links, no [..]). *)
Abbreviation path := (list pystr).

(** A regular file carries its content and its modification time.  Times
    are counted in microseconds (datetime's resolution) from 1970-01-01
    00:00:00 on the local clock, the clock [datetime.now()] and
    [datetime.fromtimestamp] both read.  A time is any integer; which
    times [datetime] can hold is decided where the program builds one
    ([timedelta_days], [datetime_sub], [datetime_fromtimestamp] below). *)
Inductive node :=
| File (content : bytes) (mtime : Z)
| Dir.

Inductive Exn :=
| RuntimeError (msg : pystr)
| RequestException (url : pystr)   (* requests: no response (connection, timeout, bad URL) *)
| HTTPError (status : Z)           (* [Response.raise_for_status] *)
| LoginFailed                      (* qbittorrentapi: credentials rejected *)
| APIConnectionError               (* qbittorrentapi: WebUI unreachable *)
| UnsupportedMediaType415Error     (* qbittorrentapi: torrent file refused *)
| OverflowError                    (* [timedelta(days=...)], [datetime - timedelta] *)
| TimestampOutOfRange (t : Z)      (* [datetime.fromtimestamp]: see there *)
| FileNotFoundError (p : path)
| FileExistsError (p : path)
| IsADirectoryError (p : path)
| NotADirectoryError (p : path).

Record Job := mkJob {
  torrent_files : bytes;
  save_path : path;
  category : pystr;
  use_auto_torrent_management : bool;
  paused : bool
}.

Inductive Level := INFO | WARNING | ERROR.

Definition levelno (l : Level) : Z :=
  match l with INFO => 20 | WARNING => 30 | ERROR => 40 end.

(** The messages of the program, with their [%]-arguments. *)
Inductive Msg :=
| MsgFetchingIndex
| MsgDownloading (url : pystr) (fn : path)
| MsgConnected (version api : pystr)
| MsgCreatingSaveDir (d : path)
| MsgQueued (name : pystr)
| MsgRemoving (name : pystr)
| MsgPruned (removed : nat)
| MsgException (exc : Exn).

(** The calls the program makes to its collaborators, in program order. *)
Inductive Call :=
| RequestsGet (url : pystr) (stream : bool) (timeout : Z)
| OpenWrite (p : path)
| FileWrite (p : path) (chunk : bytes)
| QbAuthLogIn (host : pystr) (port : Z) (user pw : pystr)
| QbAppVersion
| QbAppWebApiVersion
| PathIsDir (p : path)
| PathMkdir (p : path)
| OpenRead (p : path)
| QbTorrentsAdd (j : Job)
| PathIterdir (p : path)
| PathIsFile (p : path)
| PathStat (p : path)
| PathUnlink (p : path).

Record Response := mkResponse {
  status_code : Z;
  content : bytes;          (* the body, as [iter_content] streams it *)
  document : list Tag       (* the body, as BeautifulSoup parses [text] *)
}.

Inductive AuthOutcome := AuthAccepted | AuthRejected | AuthUnreachable.

(** What [torrents_add] meets: the WebUI answers ["Ok."] and has the job,
    it answers ["Fails."] and has not (the call returns all the same), or
    the client raises. *)
Inductive AddOutcome := AddOk | AddFails | AddRefused.

(** What the run reads but does not change. *)
Record Env := mkEnv {
  http : pystr -> option Response;      (* [None]: the request raises *)
  gettempdir : path;
  now : Z;                              (* [datetime.now()], microseconds *)
  qb_auth : pystr -> Z -> pystr -> pystr -> AuthOutcome;
  qb_version : pystr;
  qb_web_api_version : pystr;
  qb_torrents_add : Job -> AddOutcome
}.

(** What the run changes. *)
Record State := mkState {
  fs : gmap path node;
  jobs : list Job;                      (* the jobs of the remote client *)
  loglevel : Level;                     (* the root logger's threshold *)
  logged : list (Level * Msg);          (* the logging calls made *)
  calls : list Call
}.

Definition set_fs (f : gmap path node -> gmap path node) (st : State) : State :=
  mkState (f (fs st)) (jobs st) (loglevel st) (logged st) (calls st).
Definition add_job (j : Job) (st : State) : State :=
  mkState (fs st) (jobs st ++ [j]) (loglevel st) (logged st) (calls st).
Definition set_loglevel (l : Level) (st : State) : State :=
  mkState (fs st) (jobs st) l (logged st) (calls st).
Definition add_log (l : Level) (m : Msg) (st : State) : State :=
  mkState (fs st) (jobs st) (loglevel st) (logged st ++ [(l, m)]) (calls st).
Definition add_call (c : Call) (st : State) : State :=
  mkState (fs st) (jobs st) (loglevel st) (logged st) (calls st ++ [c]).

(** The records a handler at the configured threshold lets through. *)
Definition emitted (st : State) : list (Level * Msg) :=
  filter (fun r => levelno (loglevel st) <= levelno r.1) (logged st).

(** ** The monad: state and exceptions *)

Inductive Result (A : Type) :=
| Ok (a : A)
| Raise (e : Exn).
Arguments Ok {A} a.
Arguments Raise {A} e.

Definition M (A : Type) : Type := State -> Result A * State.

Definition ret {A} (a : A) : M A := fun st => (Ok a, st).
Definition raise {A} (e : Exn) : M A := fun st => (Raise e, st).
Definition bind {A B} (c : M A) (k : A -> M B) : M B :=
  fun st =>
    match c st with
    | (Ok a, st') => k a st'
    | (Raise e, st') => (Raise e, st')
    end.
Definition call (c : Call) : M unit := fun st => (Ok tt, add_call c st).

Notation "x <- c ;; k" := (bind c (fun x => k))
  (at level 100, c at next level, right associativity).
Notation "c ;;; k" := (bind c (fun _ => k))
  (at level 100, right associativity).

Definition logging_info (m : Msg) : M unit := fun st => (Ok tt, add_log INFO m st).
Definition logging_error (m : Msg) : M unit := fun st => (Ok tt, add_log ERROR m st).

(** ** Filesystem primitives *)

(** The root always exists and is a directory. *)
Definition node_at (m : gmap path node) (p : path) : option node :=
  match p with
  | [] => Some Dir
  | _ => m !! p
  end.

Definition is_dir (m : gmap path node) (p : path) : bool :=
  match node_at m p with Some Dir => true | _ => false end.

Definition is_file (m : gmap path node) (p : path) : bool :=
  match node_at m p with Some (File _ _) => true | _ => false end.

Definition parent (p : path) : path := removelast p.

(** The system resolves a path from the root, one component at a time;
    [under_file_from m pre rest] tells whether the walk from [pre] through
    [rest] meets a regular file where it needs a directory (ENOTDIR)
    before it meets a missing component (ENOENT). *)
Fixpoint under_file_from (m : gmap path node) (pre rest : path) : bool :=
  match rest with
  | [] => false
  | x :: rest' =>
      match node_at m pre with
      | Some Dir => under_file_from m (pre ++ [x]) rest'
      | Some (File _ _) => true
      | None => false
      end
  end.

Definition under_file (m : gmap path node) (p : path) : bool :=
  under_file_from m [] p.

(** The error of a system call on a path that does not resolve. *)
Definition missing_error (m : gmap path node) (p : path) : Exn :=
  if under_file m p then NotADirectoryError p else FileNotFoundError p.

(** [PurePath.name] *)
Definition path_name (p : path) : pystr := List.last p [].

(** [directory / name] for a name without slashes, as the system resolves
    it: an empty name or [.] is the directory itself, [..] its parent. *)
Definition joinpath (d : path) (name : pystr) : path :=
  if decide (name = [] \/ name = lit ".") then d
  else if decide (name = lit "..") then parent d
  else d ++ [name].

(** The name of [p] if it is a direct child of [d]. *)
Fixpoint child_name (d p : path) : option pystr :=
  match d, p with
  | [], [n] => Some n
  | x :: d', y :: p' => if decide (x = y) then child_name d' p' else None
  | _, _ => None
  end.

(** [os.listdir]: the names of the direct children, in the order in which
    the map enumerates them. *)
Definition listdir (m : gmap path node) (d : path) : list pystr :=
  omap (child_name d) (map_to_list m).*1.

Definition append_chunk (chunk : bytes) (t : Z) (n : node) : node :=
  match n with
  | File c _ => File (c ++ chunk) t
  | Dir => Dir
  end.

(** [response.iter_content(n)]: the body in pieces of [n] bytes. *)
Fixpoint chunked (fuel n : nat) (b : bytes) : list bytes :=
  match fuel, b with
  | O, _ => []
  | _, [] => []
  | S fuel', _ => take n b :: chunked fuel' n (drop n b)
  end.

Definition iter_content (n : nat) (b : bytes) : list bytes :=
  chunked (length b) n b.

Section Program.

Variable E : Env.

(** [Path.is_dir()], [Path.is_file()] *)
Definition path_is_dir (p : path) : M bool :=
  call (PathIsDir p) ;;; fun st => (Ok (is_dir (fs st) p), st).

Definition path_is_file (p : path) : M bool :=
  call (PathIsFile p) ;;; fun st => (Ok (is_file (fs st) p), st).

(** [os.mkdir] *)
Definition os_mkdir (p : path) : M unit := fun st =>
  match node_at (fs st) p with
  | Some _ => (Raise (FileExistsError p), st)
  | None =>
      match node_at (fs st) (parent p) with
      | Some Dir => (Ok tt, set_fs (insert p Dir) st)
      | Some (File _ _) => (Raise (NotADirectoryError p), st)
      | None => (Raise (missing_error (fs st) p), st)
      end
  end.

(** The [except OSError] clause of [Path.mkdir]. *)
Definition mkdir_oserror (exist_ok : bool) (p : path) (e : Exn) : M unit := fun st =>
  if exist_ok && is_dir (fs st) p then (Ok tt, st) else (Raise e, st).

(** [Path.mkdir(parents, exist_ok)] of pathlib, on the reversed path
    (last component first), so that the recursion on [self.parent] is
    structural. *)
Fixpoint mkdir_rev (parents exist_ok : bool) (rp : path) {struct rp} : M unit := fun st =>
  let p := rev rp in
  match os_mkdir p st with
  | (Ok _, st1) => (Ok tt, st1)
  | (Raise (FileNotFoundError q), st1) =>
      match rp with
      | [] => (Raise (FileNotFoundError q), st1)
      | _ :: rparent =>
          if negb parents then (Raise (FileNotFoundError q), st1)
          else
            match mkdir_rev true true rparent st1 with
            | (Ok _, st2) =>
                match os_mkdir p st2 with
                | (Ok _, st3) => (Ok tt, st3)
                | (Raise (FileNotFoundError q'), st3) => (Raise (FileNotFoundError q'), st3)
                | (Raise e, st3) => mkdir_oserror exist_ok p e st3
                end
            | (Raise e, st2) => (Raise e, st2)
            end
      end
  | (Raise e, st1) => mkdir_oserror exist_ok p e st1
  end.

Definition path_mkdir (parents exist_ok : bool) (p : path) : M unit :=
  call (PathMkdir p) ;;; mkdir_rev parents exist_ok (rev p).

(** [Path.open("wb")]: create or truncate. *)
Definition open_wb (p : path) : M unit :=
  call (OpenWrite p) ;;; fun st =>
  match node_at (fs st) p with
  | Some Dir => (Raise (IsADirectoryError p), st)
  | Some (File _ _) => (Ok tt, set_fs (insert p (File [] (now E))) st)
  | None =>
      match node_at (fs st) (parent p) with
      | Some Dir => (Ok tt, set_fs (insert p (File [] (now E))) st)
      | Some (File _ _) => (Raise (NotADirectoryError p), st)
      | None => (Raise (missing_error (fs st) p), st)
      end
  end.

(** [f.write(chunk)] on a file opened by [open_wb]. *)
Definition file_write (p : path) (chunk : bytes) : M unit :=
  call (FileWrite p chunk) ;;; fun st =>
  (Ok tt, set_fs (alter (append_chunk chunk (now E)) p) st).

(** [Path.open("rb")] and the read of the whole file. *)
Definition open_rb (p : path) : M bytes :=
  call (OpenRead p) ;;; fun st =>
  match node_at (fs st) p with
  | Some (File c _) => (Ok c, st)
  | Some Dir => (Raise (IsADirectoryError p), st)
  | None => (Raise (missing_error (fs st) p), st)
  end.

(** [Path.iterdir()] *)
Definition path_iterdir (d : path) : M (list pystr) :=
  call (PathIterdir d) ;;; fun st =>
  match node_at (fs st) d with
  | Some Dir => (Ok (listdir (fs st) d), st)
  | Some (File _ _) => (Raise (NotADirectoryError d), st)
  | None => (Raise (missing_error (fs st) d), st)
  end.

(** [file.stat().st_mtime]; directories carry no time here, the program
    only looks at regular files. *)
Definition stat_mtime (p : path) : M Z :=
  call (PathStat p) ;;; fun st =>
  match node_at (fs st) p with
  | Some (File _ t) => (Ok t, st)
  | Some Dir => (Ok 0, st)
  | None => (Raise (missing_error (fs st) p), st)
  end.

(** [Path.unlink(missing_ok=True)]: of the errors of a missing path only
    FileNotFoundError is passed over. *)
Definition path_unlink (p : path) : M unit :=
  call (PathUnlink p) ;;; fun st =>
  match node_at (fs st) p with
  | Some Dir => (Raise (IsADirectoryError p), st)
  | Some (File _ _) => (Ok tt, set_fs (delete p) st)
  | None =>
      if under_file (fs st) p then (Raise (NotADirectoryError p), st)
      else (Ok tt, set_fs (delete p) st)
  end.

(** ** Dates *)

Definition microseconds_per_day : Z := 86400 * 1000000.

(** [datetime.min] and [datetime.max]: 0001-01-01 00:00:00 and 9999-12-31
    23:59:59.999999, days 1 and 3652059 of the calendar, of which
    1970-01-01 is day 719163. *)
Definition datetime_min : Z := (1 - 719163) * microseconds_per_day.
Definition datetime_max : Z := (3652059 + 1 - 719163) * microseconds_per_day - 1.

(** [timedelta(days=n)]: the magnitude of the days is bounded. *)
Definition timedelta_days (n : Z) : M Z :=
  if Z.abs n <=? 999999999 then ret (n * microseconds_per_day)
  else raise OverflowError.

(** [datetime - timedelta]: the difference has to be a datetime. *)
Definition datetime_sub (t delta : Z) : M Z :=
  if (datetime_min <=? t - delta) && (t - delta <=? datetime_max) then ret (t - delta)
  else raise OverflowError.

(** [datetime.fromtimestamp(t)], local time.  It needs the local time of
    [t] and, to tell a repeated hour, that of the day before, both with a
    year from 1 to 9999.  Outside it raises ValueError (the year is out of
    range) and, for times beyond what the platform's [localtime] takes,
    OverflowError or OSError: one exception here, [TimestampOutOfRange]. *)
Definition timestamp_ok (t : Z) : bool :=
  (datetime_min + microseconds_per_day <=? t) && (t <=? datetime_max).

Definition datetime_fromtimestamp (t : Z) : M Z :=
  if timestamp_ok t then ret t else raise (TimestampOutOfRange t).

(** ** The collaborators *)

(** [requests.get(url, stream=..., timeout=...)] *)
Definition requests_get (url : pystr) (stream : bool) (timeout : Z) : M Response :=
  call (RequestsGet url stream timeout) ;;;
  match http E url with
  | Some r => ret r
  | None => raise (RequestException url)
  end.

(** [Response.raise_for_status()]: 4xx and 5xx raise. *)
Definition raise_for_status (r : Response) : M unit :=
  if (400 <=? status_code r) && (status_code r <? 600)
  then raise (HTTPError (status_code r))
  else ret tt.

(** [qbt.auth_log_in()] *)
Definition auth_log_in (host : pystr) (port : Z) (user pw : pystr) : M unit :=
  call (QbAuthLogIn host port user pw) ;;;
  match qb_auth E host port user pw with
  | AuthAccepted => ret tt
  | AuthRejected => raise LoginFailed
  | AuthUnreachable => raise APIConnectionError
  end.

Definition app_version : M pystr :=
  call QbAppVersion ;;; ret (qb_version E).

Definition app_web_api_version : M pystr :=
  call QbAppWebApiVersion ;;; ret (qb_web_api_version E).

(** [qbt.torrents_add(...)], whose answer (["Ok."] or ["Fails."]) the
    program does not look at. *)
Definition torrents_add (j : Job) : M unit :=
  call (QbTorrentsAdd j) ;;;
  match qb_torrents_add E j with
  | AddOk => fun st => (Ok tt, add_job j st)
  | AddFails => ret tt
  | AddRefused => raise UnsupportedMediaType415Error
  end.

(** ** The four stages *)

Definition latest_torrent_url : M pystr :=
  logging_info MsgFetchingIndex ;;;
  r <- requests_get META_URL false 30 ;;
  match scan_links (find_all_a_href (document r)) with
  | Some url => ret url
  | None => raise (RuntimeError NO_LINK_MESSAGE)
  end.

Fixpoint write_chunks (fn : path) (chunks : list bytes) : M unit :=
  match chunks with
  | [] => ret tt
  | chunk :: rest => file_write fn chunk ;;; write_chunks fn rest
  end.

Definition download_torrent (url : pystr) : M path :=
  let fn := joinpath (gettempdir E) (basename url) in
  logging_info (MsgDownloading url fn) ;;;
  r <- requests_get url true 60 ;;
  open_wb fn ;;;
  raise_for_status r ;;;
  write_chunks fn (iter_content (Z.to_nat (Z.shiftl 1 14)) (content r)) ;;;
  ret fn.

Definition push_to_qb (torrent_path : path) (host : pystr) (port : Z)
    (user pw : pystr) (save_dir : path) (cat : pystr) : M unit :=
  auth_log_in host port user pw ;;;
  v <- app_version ;;
  w <- app_web_api_version ;;
  logging_info (MsgConnected v w) ;;;
  d <- path_is_dir save_dir ;;
  (if negb d then
     logging_info (MsgCreatingSaveDir save_dir) ;;;
     path_mkdir true true save_dir
   else ret tt) ;;;
  tf <- open_rb torrent_path ;;
  torrents_add (mkJob tf save_dir cat false false) ;;;
  logging_info (MsgQueued (path_name torrent_path)).

(** The body of the [for file in directory.iterdir()] loop. *)
Fixpoint prune_loop (directory : path) (cutoff : Z) (names : list pystr)
    (removed : nat) : M nat :=
  match names with
  | [] => ret removed
  | name :: rest =>
      let file := directory ++ [name] in
      f <- path_is_file file ;;
      if negb f then prune_loop directory cutoff rest removed
      else if negb (Re.re_match DUMP_FILE_RE name) then prune_loop directory cutoff rest removed
      else if endswith name (lit ".!qB") then prune_loop directory cutoff rest removed
      else
        t <- stat_mtime file ;;
        modified <- datetime_fromtimestamp t ;;
        if modified <? cutoff then
          logging_info (MsgRemoving name) ;;;
          path_unlink file ;;;
          prune_loop directory cutoff rest (S removed)
        else prune_loop directory cutoff rest removed
  end.

Definition prune_old_dumps (directory : path) (keep_days : Z) : M unit :=
  delta <- timedelta_days keep_days ;;
  cutoff <- datetime_sub (now E) delta ;;
  names <- path_iterdir directory ;;
  removed <- prune_loop directory cutoff names 0%nat ;;
  logging_info (MsgPruned removed).

(** ** main *)

Record Args := mkArgs {
  arg_host : pystr;
  arg_port : Z;
  arg_user : pystr;
  arg_password : pystr;
  arg_save_dir : path;
  arg_category : pystr;
  arg_retention : Z;
  arg_quiet : bool
}.

(** The [try] block of [main]. *)
Definition stages (args : Args) : M unit :=
  url <- latest_torrent_url ;;
  torrent_path <- download_torrent url ;;
  push_to_qb torrent_path (arg_host args) (arg_port args) (arg_user args)
    (arg_password args) (arg_save_dir args) (arg_category args) ;;;
  prune_old_dumps (arg_save_dir args) (arg_retention args).

(** [main] after argument parsing, as the script enters it: the exit code
    and the final world.  The root logger has no handler yet, so
    [logging.basicConfig] installs one and sets the threshold. *)
Definition main (args : Args) (st0 : State) : Z * State :=
  let st := set_loglevel (if arg_quiet args then WARNING else INFO) st0 in
  match stages args st with
  | (Ok _, st') => (0, st')
  | (Raise exc, st') => (1, (logging_error (MsgException exc) st').2)
  end.

End Program.

(** ** Specification vocabulary *)

(** What a pattern accepts, declaratively: [accepts ic p s] when the items
    of [p] match a prefix of [s] ([$] looking at what is left). *)
Inductive accepts (ic : bool) : list Re.item -> pystr -> Prop :=
| accepts_nil s : accepts ic [] s
| accepts_one k p x s :
    Re.cls_match ic k x = true -> accepts ic p s ->
    accepts ic (Re.One k :: p) (x :: s)
| accepts_many k p xs s :
    Forall (fun x => Re.cls_match ic k x = true) xs -> accepts ic p s ->
    accepts ic (Re.Many k :: p) (xs ++ s)
| accepts_eol p s :
    Re.at_end s = true -> accepts ic p s ->
    accepts ic (Re.Eol :: p) s.

(** [a] spells the ASCII word [w] up to case, as [re.IGNORECASE] folds it. *)
Definition ci_equal (w : string) (a : pystr) : Prop :=
  Forall2 (fun c x => Re.lit_match true c x = true) (lit w) a.

(** The hrefs that [TORRENT_NAME_RE.search] accepts. *)
Definition torrent_link (href : pystr) : Prop :=
  exists pre a m1 b m2 c e,
    href = pre ++ a ++ m1 ++ b ++ m2 ++ c ++ e /\
    ci_equal "enwiki-" a /\ (LF ∉ m1) /\
    ci_equal "pages-articles-multistream" b /\ (LF ∉ m2) /\
    ci_equal ".torrent" c /\ (e = [] \/ e = [LF]).

(** An anchor element with the given href. *)
Definition anchor (href : pystr) : Tag := mkTag (lit "a") {[ lit "href" := href ]}.

(** RFC 3986: an absolute URL begins with a scheme,
    [ALPHA *( ALPHA / DIGIT / "+" / "-" / "." ) ":"]. *)
Definition is_alpha (x : N) : bool :=
  ((0x41 <=? x)%N && (x <=? 0x5a)%N) || ((0x61 <=? x)%N && (x <=? 0x7a)%N).

Definition is_scheme_char (x : N) : bool :=
  is_alpha x || ((0x30 <=? x)%N && (x <=? 0x39)%N) ||
  (x =? 0x2b)%N || (x =? 0x2d)%N || (x =? 0x2e)%N.

Fixpoint scheme_tail (s : pystr) : bool :=
  match s with
  | [] => false
  | x :: s' => (x =? 0x3a)%N || (is_scheme_char x && scheme_tail s')
  end.

Definition is_absolute_url (s : pystr) : bool :=
  match s with
  | x :: s' => is_alpha x && scheme_tail s'
  | [] => false
  end.

(** [prune_loop] with its [endswith(".!qB")] branch removed, to compare
    with the loop of the source. *)
Fixpoint prune_loop_unguarded (directory : path) (cutoff : Z) (names : list pystr)
    (removed : nat) : M nat :=
  match names with
  | [] => ret removed
  | name :: rest =>
      let file := directory ++ [name] in
      f <- path_is_file file ;;
      if negb f then prune_loop_unguarded directory cutoff rest removed
      else if negb (Re.re_match DUMP_FILE_RE name) then prune_loop_unguarded directory cutoff rest removed
      else
        t <- stat_mtime file ;;
        modified <- datetime_fromtimestamp t ;;
        if modified <? cutoff then
          logging_info (MsgRemoving name) ;;;
          path_unlink file ;;;
          prune_loop_unguarded directory cutoff rest (S removed)
        else prune_loop_unguarded directory cutoff rest removed
  end.

Definition is_2xx (status : Z) : bool := (200 <=? status) && (status <? 300).

(** When [Path.open("wb")] succeeds: the path is a regular file, or it is
    free and its parent is a directory. *)
Definition can_open_wb (m : gmap path node) (p : path) : bool :=
  match node_at m p with
  | Some Dir => false
  | Some (File _ _) => true
  | None => is_dir m (parent p)
  end.

(** The statuses on which [raise_for_status] raises. *)
Definition http_error_status (status : Z) : bool := (400 <=? status) && (status <? 600).

(** A well-formed filesystem: every entry lies in a directory. *)
Definition fs_wf (m : gmap path node) : Prop :=
  map_Forall (fun p _ => is_dir m (parent p) = true) m.

(** The files the pruner is to remove from directory [d]: the direct
    children that are regular files, whose name the dump pattern matches,
    whose name does not end in the in-progress marker, and whose
    modification time precedes the cutoff. *)
Definition prunable (m : gmap path node) (d : path) (cutoff : Z) (p : path) : bool :=
  match child_name d p, m !! p with
  | Some name, Some (File _ t) =>
      Re.re_match DUMP_FILE_RE name && negb (endswith name (lit ".!qB")) && (t <? cutoff)
  | _, _ => false
  end.

(** The retentions for which the pruner gets its cutoff: [timedelta]
    takes the days, and now minus these days is a datetime. *)
Definition retention_ok (now keep_days : Z) : bool :=
  (Z.abs keep_days <=? 999999999) &&
  (datetime_min <=? now - keep_days * microseconds_per_day) &&
  (now - keep_days * microseconds_per_day <=? datetime_max).

(** The dumps of directory [d] all carry a modification time that
    [datetime.fromtimestamp] turns into a datetime. *)
Definition mtimes_ok (m : gmap path node) (d : path) : Prop :=
  forall name c t,
    m !! (d ++ [name]) = Some (File c t) ->
    Re.re_match DUMP_FILE_RE name = true ->
    timestamp_ok t = true.

(** The stage of [main] that makes a call: 1 resolver, 2 fetcher,
    3 submitter, 4 pruner.  The two [requests.get] calls differ in their
    [stream] argument. *)
Definition stage_of (c : Call) : nat :=
  match c with
  | RequestsGet _ false _ => 1
  | RequestsGet _ true _ | OpenWrite _ | FileWrite _ _ => 2
  | QbAuthLogIn _ _ _ _ | QbAppVersion | QbAppWebApiVersion
  | PathIsDir _ | PathMkdir _ | OpenRead _ | QbTorrentsAdd _ => 3
  | PathIterdir _ | PathIsFile _ | PathStat _ | PathUnlink _ => 4
  end.

(** A computation all of whose calls belong to stage [k]. *)
Definition stage_calls {A} (k : nat) (c : M A) : Prop :=
  forall st, exists new,
    calls (c st).2 = calls st ++ new /\ Forall (fun x => stage_of x = k) new.

(** The hrefs of the anchors that carry one, in document order. *)
Definition anchor_hrefs (doc : list Tag) : list pystr :=
  omap (fun t => if decide (tag_name t = lit "a") then tag_attrs t !! lit "href" else None) doc.

(** The names that [DUMP_FILE_RE.match] accepts. *)
Definition dump_name (name : pystr) : Prop :=
  exists a ds b m c e,
    name = a ++ ds ++ b ++ m ++ c ++ e /\
    ci_equal "enwiki-" a /\
    length ds = 8%nat /\ Forall (fun x => Re.unicode_isdecimal x = true) ds /\
    ci_equal "-pages-articles-multistream" b /\ (LF ∉ m) /\
    ci_equal ".bz2" c /\ (e = [] \/ e = [LF]).

(** A computation that logs at INFO only and leaves the threshold alone. *)
Definition logs_info_only {A} (c : M A) : Prop :=
  forall st,
    loglevel (c st).2 = loglevel st /\
    exists new, logged (c st).2 = logged st ++ new /\ Forall (fun r => r.1 = INFO) new.

(** [m'] is [m] with, at most, directories added at prefixes of [p]. *)
Definition adds_dirs (p : path) (m m' : gmap path node) : Prop :=
  forall q, m' !! q = m !! q \/
            (m !! q = None /\ m' !! q = Some Dir /\ q `prefix_of` p).

(** An ASCII lower-case letter turned into its capital; every other code
    point unchanged. *)
Definition ascii_upper (x : N) : N :=
  if ((0x61 <=? x)%N && (x <=? 0x7a)%N) then (x - 32)%N else x.

(** ** Concrete worlds for the examples *)

Definition empty_state : State := mkState ∅ [] INFO [] [].

(** A world whose index page is [doc] and which answers [resp] for every
    other URL. *)
Definition web_env (doc : list Tag) (resp : option Response) : Env :=
  mkEnv (fun u => if decide (u = META_URL) then Some (mkResponse 200 [] doc) else resp)
    [lit "tmp"] 0 (fun _ _ _ _ => AuthAccepted) (lit "v5.0.0") (lit "2.9.3")
    (fun _ => AddOk).

Definition relative_href : pystr :=
  lit "enwiki-20240201-pages-articles-multistream.xml.bz2.torrent".

Definition split_href : pystr :=
  lit "enwiki-/pages-articles-multistream/x.torrent".

Definition tmp_state : State := mkState {[ [lit "tmp"] := Dir ]} [] INFO [] [].

Definition not_modified : Response := mkResponse 304 [1%N; 2%N; 3%N] [].

Definition not_found : Response := mkResponse 404 [60%N; 104%N; 49%N; 62%N] [].

Definition torrent_url : pystr := lit "https://dl.example/x.torrent".

(** A temporary directory that still holds an earlier download. *)
Definition stale_state : State :=
  mkState (<[ [lit "tmp"; lit "x.torrent"] := File [7%N; 7%N] 0 ]> {[ [lit "tmp"] := Dir ]})
    [] INFO [] [].

(** A WebUI that rejects the credentials. *)
Definition rejecting_env : Env :=
  mkEnv (fun _ => None) [lit "tmp"] 0 (fun _ _ _ _ => AuthRejected) [] []
    (fun _ => AddOk).

Definition save_dir_example : path := [lit "mnt"; lit "wiki"; lit "enwiki"].

(** The downloaded torrent is in place; of the save directory only
    [/mnt] exists. *)
Definition fresh_state : State :=
  mkState (<[ [lit "tmp"; lit "x.torrent"] := File [100%N; 56%N] 0 ]>
           (<[ [lit "mnt"] := Dir ]> {[ [lit "tmp"] := Dir ]}))
    [] INFO [] [].

(** The save directory exists. *)
Definition ready_state : State :=
  mkState (<[ save_dir_example := Dir ]>
           (<[ [lit "mnt"; lit "wiki"] := Dir ]> (fs fresh_state)))
    [] INFO [] [].

Definition old_dump : pystr := lit "enwiki-20240101-pages-articles-multistream1.xml.bz2".
Definition recent_dump : pystr := lit "enwiki-20240201-pages-articles-multistream1.xml.bz2".

Definition days_ago (n : Z) : Z := 0 - n * microseconds_per_day.

(** A save directory (the clock of [web_env] reads 0) with a dump written
    40 days ago, one written 5 days ago, an unfinished transfer and a
    foreign file, both 40 days old. *)
Definition dump_dir_state : State :=
  mkState
    (<[ [lit "dumps"; old_dump] := File [1%N] (days_ago 40) ]>
     (<[ [lit "dumps"; recent_dump] := File [2%N] (days_ago 5) ]>
      (<[ [lit "dumps"; old_dump ++ lit ".!qB"] := File [3%N] (days_ago 40) ]>
       (<[ [lit "dumps"; lit "notes.txt"] := File [4%N] (days_ago 40) ]>
        {[ [lit "dumps"] := Dir ]}))))
    [] INFO [] [].

(** The first microsecond of the year 10000, and a save directory whose
    only dump carries that modification time. *)
Definition year_10000 : Z := datetime_max + 1.

Definition far_future_state : State :=
  mkState (<[ [lit "dumps"; recent_dump] := File [2%N] year_10000 ]> {[ [lit "dumps"] := Dir ]})
    [] INFO [] [].

(** A save directory with one dump, written at the moment the clock of
    [web_env] reads. *)
Definition just_written_state : State :=
  mkState (<[ [lit "dumps"; recent_dump] := File [2%N] 0 ]> {[ [lit "dumps"] := Dir ]})
    [] INFO [] [].

Definition in_progress_name : pystr :=
  lit "enwiki-20240101-pages-articles-multistream1.xml.bz2.!qB".

(** An index page with a heading, a link to another page, an anchor
    without href, and two torrent links, the first root-relative. *)
Definition mixed_page : list Tag :=
  [ mkTag (lit "h1") ∅;
    mkTag (lit "a") {[ lit "href" := lit "/wiki/Main_Page" ]};
    mkTag (lit "a") {[ lit "name" := lit "top" ]};
    mkTag (lit "a") {[ lit "href" := lit "/t/enwiki-20240201-pages-articles-multistream.xml.bz2.torrent" ]};
    anchor (lit "https://dl.example/enwiki-20240101-pages-articles-multistream.xml.bz2.torrent") ].

(** The same page served with a 404 status. *)
Definition mixed_env : Env :=
  mkEnv (fun u => if decide (u = META_URL) then Some (mkResponse 404 [] mixed_page) else None)
    [lit "tmp"] 0 (fun _ _ _ _ => AuthAccepted) [] [] (fun _ => AddOk).

(** The save directory's place is taken by a regular file. *)
Definition blocked_state : State :=
  mkState (<[ save_dir_example := File [] 0 ]>
           (<[ [lit "mnt"; lit "wiki"] := Dir ]> (fs fresh_state)))
    [] INFO [] [].

(** A run that goes through. *)
Definition plain_args : Args :=
  mkArgs (lit "localhost") 8080 (lit "admin") (lit "adminadmin")
    save_dir_example (lit "wikipedia") 30 false.

Definition working_env : Env :=
  web_env [anchor (lit "//dl.example/enwiki-20240201-pages-articles-multistream.xml.bz2.torrent")]
    (Some (mkResponse 200 [100%N; 56%N] [])).

(** The same world, with a WebUI that answers ["Fails."] to every job. *)
Definition unwilling_env : Env :=
  mkEnv (http working_env) [lit "tmp"] 0 (fun _ _ _ _ => AuthAccepted)
    (lit "v5.0.0") (lit "2.9.3") (fun _ => AddFails).

(** * Verification *)

(** ** The matcher against its declarative reading *)

Lemma star_from_spec ok rest s :
  Re.star_from ok rest s = true <->
  exists xs s', s = xs ++ s' /\ Forall (fun x => ok x = true) xs /\ rest s' = true.
Proof.
  induction s as [|x s IH]; simpl.
  - rewrite orb_false_r. split.
    + intros H. exists [], []. auto.
    + intros (xs & s' & Heq & _ & Hr). symmetry in Heq.
      apply app_eq_nil in Heq as [-> ->]. exact Hr.
  - rewrite orb_true_iff, andb_true_iff, IH. split.
    + intros [Hr | [Hx (xs & s' & -> & Hxs & Hr)]].
      * exists [], (x :: s). auto.
      * exists (x :: xs), s'. auto.
    + intros (xs & s' & Heq & Hxs & Hr). destruct xs as [|y xs]; simpl in Heq.
      * left. now subst s'.
      * right. injection Heq as -> ->. inversion Hxs; subst.
        split; [assumption|]. exists xs, s'. auto.
Qed.

Lemma match_items_accepts ic p s :
  Re.match_items ic p s = true <-> accepts ic p s.
Proof.
  revert s. induction p as [|i p IH]; intros s; simpl.
  - split; [constructor | reflexivity].
  - destruct i as [k | k |].
    + destruct s as [|x s].
      * split; [discriminate | inversion 1].
      * rewrite andb_true_iff, IH. split.
        -- intros [? ?]. now constructor.
        -- inversion 1; subst. auto.
    + rewrite star_from_spec. split.
      * intros (xs & s' & -> & Hxs & Hr). constructor; [assumption|]. now apply IH.
      * inversion 1; subst. eexists _, _. split; [reflexivity|].
        split; [assumption|]. now apply IH.
    + rewrite andb_true_iff, IH. split.
      * intros [? ?]. now constructor.
      * inversion 1; subst. auto.
Qed.

Lemma search_items_spec ic p s :
  Re.search_items ic p s = true <->
  exists pre suf, s = pre ++ suf /\ accepts ic p suf.
Proof.
  induction s as [|x s IH]; simpl.
  - rewrite orb_false_r, match_items_accepts. split.
    + intros H. exists [], []. auto.
    + intros (pre & suf & Heq & H). symmetry in Heq.
      apply app_eq_nil in Heq as [-> ->]. exact H.
  - rewrite orb_true_iff, match_items_accepts, IH. split.
    + intros [H | (pre & suf & -> & H)].
      * exists [], (x :: s). auto.
      * exists (x :: pre), suf. auto.
    + intros (pre & suf & Heq & H). destruct pre as [|y pre]; simpl in Heq.
      * left. now subst suf.
      * right. injection Heq as -> ->. eauto.
Qed.

Lemma search_items_app ic p pre suf :
  Re.search_items ic p suf = true -> Re.search_items ic p (pre ++ suf) = true.
Proof.
  rewrite !search_items_spec. intros (pre' & suf' & -> & H).
  exists (pre ++ pre'), suf'. now rewrite app_assoc.
Qed.

Lemma basename_is_suffix s : exists pre, s = pre ++ basename s.
Proof.
  induction s as [|x s [pre IH]]; simpl.
  - now exists [].
  - destruct (existsb (N.eqb SLASH) s).
    + exists (x :: pre). simpl. now f_equal.
    + destruct (x =? SLASH)%N; [now exists [x] | now exists []].
Qed.

Lemma accepts_lits w p t :
  accepts true (Re.lits w ++ p) t <->
  exists a rest, t = a ++ rest /\ ci_equal w a /\ accepts true p rest.
Proof.
  unfold ci_equal, Re.lits. revert t.
  induction (lit w) as [|c cs IH]; intros t; simpl.
  - split.
    + intros H. exists [], t. repeat split; [constructor | assumption].
    + intros (a & rest & -> & Ha & H). inversion Ha; subst. exact H.
  - split.
    + inversion 1; subst. apply IH in H4 as (a & rest & -> & Ha & Hr).
      exists (x :: a), rest. repeat split; [|assumption]. now constructor.
    + intros (a & rest & -> & Ha & Hr). inversion Ha; subst. simpl.
      constructor; [assumption|]. apply IH. eauto.
Qed.

Lemma Forall_not_LF (m : pystr) :
  Forall (fun x => Re.cls_match true Re.CAny x = true) m <-> LF ∉ m.
Proof.
  rewrite Forall_forall. simpl. split.
  - intros H Hin. specialize (H _ Hin). now rewrite N.eqb_refl in H.
  - intros H x Hx. apply negb_true_iff, N.eqb_neq. intros ->. contradiction.
Qed.

Lemma accepts_many_any p t :
  accepts true (Re.Many Re.CAny :: p) t <->
  exists m rest, t = m ++ rest /\ (LF ∉ m) /\ accepts true p rest.
Proof.
  split.
  - inversion 1; subst. eexists _, _. split; [reflexivity|].
    split; [now apply Forall_not_LF | assumption].
  - intros (m & rest & -> & Hm & H). constructor; [now apply Forall_not_LF | assumption].
Qed.

Lemma at_end_spec t : Re.at_end t = true <-> t = [] \/ t = [LF].
Proof.
  destruct t as [|x [|y t]]; simpl.
  - tauto.
  - rewrite N.eqb_eq. split; [intros ->; now right | intros [?|[= ->]]; [discriminate | reflexivity]].
  - split; [discriminate | intros [?|?]; discriminate].
Qed.

Lemma accepts_eol_only ic t : accepts ic [Re.Eol] t <-> t = [] \/ t = [LF].
Proof.
  rewrite <- at_end_spec. split.
  - now inversion 1.
  - intros H. constructor; [assumption | constructor].
Qed.

Lemma torrent_search_spec href :
  Re.re_search TORRENT_NAME_RE href = true <-> torrent_link href.
Proof.
  unfold Re.re_search, TORRENT_NAME_RE, torrent_link. cbn [Re.items Re.ignorecase].
  rewrite search_items_spec. split.
  - intros (pre & suf & -> & H).
    apply accepts_lits in H as (a & r1 & -> & Ha & H).
    change ([Re.Many Re.CAny] ++ ?q) with (Re.Many Re.CAny :: q) in H.
    apply accepts_many_any in H as (m1 & r2 & -> & Hm1 & H).
    apply accepts_lits in H as (b & r3 & -> & Hb & H).
    change ([Re.Many Re.CAny] ++ ?q) with (Re.Many Re.CAny :: q) in H.
    apply accepts_many_any in H as (m2 & r4 & -> & Hm2 & H).
    apply accepts_lits in H as (c & e & -> & Hc & H).
    apply accepts_eol_only in H.
    exists pre, a, m1, b, m2, c, e. auto 10.
  - intros (pre & a & m1 & b & m2 & c & e & -> & Ha & Hm1 & Hb & Hm2 & Hc & He).
    exists pre, (a ++ m1 ++ b ++ m2 ++ c ++ e). split; [reflexivity|].
    apply accepts_lits. exists a, (m1 ++ b ++ m2 ++ c ++ e). repeat split; [assumption|].
    change ([Re.Many Re.CAny] ++ ?q) with (Re.Many Re.CAny :: q).
    apply accepts_many_any. exists m1, (b ++ m2 ++ c ++ e). repeat split; [assumption|].
    apply accepts_lits. exists b, (m2 ++ c ++ e). repeat split; [assumption|].
    change ([Re.Many Re.CAny] ++ ?q) with (Re.Many Re.CAny :: q).
    apply accepts_many_any. exists m2, (c ++ e). repeat split; [assumption|].
    apply accepts_lits. exists c, e. repeat split; [assumption|].
    now apply accepts_eol_only.
Qed.

(** ** String tests *)

Lemma startswith_spec s pre :
  startswith s pre = true <-> exists t, s = pre ++ t.
Proof.
  revert s. induction pre as [|p pre IH]; intros s; simpl.
  - split; [intros _; now exists s | intros _; now destruct s].
  - destruct s as [|x s].
    + split; [discriminate | intros [t Ht]; discriminate].
    + rewrite andb_true_iff, N.eqb_eq, IH. split.
      * intros [-> [t ->]]. now exists t.
      * intros [t [= -> ->]]. eauto.
Qed.

Lemma endswith_spec s suf :
  endswith s suf = true <-> exists t, s = t ++ suf.
Proof.
  unfold endswith. rewrite startswith_spec. split.
  - intros [t Ht]. exists (rev t).
    rewrite <- (rev_involutive s), Ht, rev_app_distr. now rewrite rev_involutive.
  - intros [t ->]. exists (rev t). now rewrite rev_app_distr.
Qed.

(** ** The in-progress marker and the dump pattern *)

Lemma accepts_last ic p k s :
  accepts ic (p ++ [Re.One k; Re.Eol]) s ->
  exists pre x e, s = pre ++ x :: e /\ Re.cls_match ic k x = true /\ (e = [] \/ e = [LF]).
Proof.
  revert s. induction p as [|i p IH]; intros s H; simpl in H.
  - inversion H as [| ? ? x s' Hx Hs | |]; subst.
    apply accepts_eol_only in Hs. exists [], x, s'. auto.
  - inversion H as [| ? ? x s' Hx Hs | ? ? xs s' Hxs Hs | ? ? He Hs]; subst.
    + apply IH in Hs as (pre & y & e & -> & Hy & He). exists (x :: pre), y, e. auto.
    + apply IH in Hs as (pre & y & e & -> & Hy & He). exists (xs ++ pre), y, e.
      rewrite <- app_assoc. auto.
    + now apply IH.
Qed.

Lemma marker_not_dump name :
  endswith name (lit ".!qB") = true -> Re.re_match DUMP_FILE_RE name = false.
Proof.
  intros [t ->]%endswith_spec. apply not_true_is_false. intros H.
  change (lit ".!qB") with [46%N; 33%N; 113%N; 66%N] in H.
  unfold Re.re_match in H. apply match_items_accepts in H.
  change (Re.items DUMP_FILE_RE) with
    (removelast (removelast (Re.items DUMP_FILE_RE)) ++ [Re.One (Re.CLit 0x32%N); Re.Eol]) in H.
  apply accepts_last in H as (pre & x & e & Heq & Hx & He).
  apply (f_equal (@rev N)) in Heq. rewrite !rev_app_distr in Heq. simpl in Heq.
  destruct He as [-> | ->]; simpl in Heq.
  - injection Heq as <- _. vm_compute in Hx. discriminate.
  - injection Heq as Hlf _. vm_compute in Hlf. discriminate.
Qed.

Lemma bind_ext {A B} (c : M A) (k1 k2 : A -> M B) st :
  (forall a st', k1 a st' = k2 a st') -> bind c k1 st = bind c k2 st.
Proof.
  intros H. unfold bind. destruct (c st) as [[a|e] st']; [apply H | reflexivity].
Qed.

Lemma prune_loop_unguarded_eq d c names removed st :
  prune_loop d c names removed st = prune_loop_unguarded d c names removed st.
Proof.
  revert removed st. induction names as [|n names IH]; intros removed st; [reflexivity|].
  cbn [prune_loop prune_loop_unguarded].
  apply bind_ext. intros f st1.
  destruct f; cbn [negb]; [|apply IH].
  destruct (Re.re_match DUMP_FILE_RE n) eqn:Hm; cbn [negb]; [|apply IH].
  destruct (endswith n (lit ".!qB")) eqn:He.
  { apply marker_not_dump in He. congruence. }
  apply bind_ext. intros t st2. apply bind_ext. intros modified st3.
  destruct (modified <? c); [|apply IH].
  apply bind_ext. intros _ st4. apply bind_ext. intros _ st5. apply IH.
Qed.

(** C8. A name that ends in the in-progress marker [.!qB] never matches
    the dump filename pattern, so the pattern check already skips it; the
    [endswith] branch of the pruner is never taken: the loop behaves, on
    every input, like the loop without that branch. *)
Theorem in_progress_branch_unreachable :
  (forall name, endswith name (lit ".!qB") = true ->
     Re.re_match DUMP_FILE_RE name = false) /\
  (forall d cutoff names removed st,
     prune_loop d cutoff names removed st =
     prune_loop_unguarded d cutoff names removed st).
Proof.
  split; [exact marker_not_dump | exact prune_loop_unguarded_eq].
Qed.

Lemma in_progress_branch_unreachable_witness :
  endswith in_progress_name (lit ".!qB") = true /\
  Re.re_match DUMP_FILE_RE in_progress_name = false.
Proof.
  split; [reflexivity|].
  apply (proj1 in_progress_branch_unreachable in_progress_name). reflexivity.
Defined.

(** ** The link resolver *)

Lemma find_all_anchor h doc :
  find_all_a_href (anchor h :: doc) = anchor h :: find_all_a_href doc.
Proof.
  unfold find_all_a_href. rewrite filter_cons_True; [reflexivity|].
  split; [reflexivity|]. simpl. rewrite lookup_singleton_eq. eauto.
Qed.

Lemma find_all_anchors hs :
  find_all_a_href (anchor <$> hs) = anchor <$> hs.
Proof.
  induction hs as [|h hs IH]; [reflexivity|].
  rewrite fmap_cons, find_all_anchor. now f_equal.
Qed.

Lemma scan_links_anchors hs :
  scan_links (anchor <$> hs) =
  absolutize <$> head (filter (fun h => Re.re_search TORRENT_NAME_RE h = true) hs).
Proof.
  induction hs as [|h hs IH]; [reflexivity|].
  rewrite fmap_cons.
  assert (Hc : scan_links (anchor h :: (anchor <$> hs)) =
               if Re.re_search TORRENT_NAME_RE h then Some (absolutize h)
               else scan_links (anchor <$> hs)).
  { cbn [scan_links]. unfold anchor at 1 2. cbn [tag_attrs].
    rewrite lookup_singleton_eq. reflexivity. }
  rewrite Hc.
  destruct (Re.re_search TORRENT_NAME_RE h) eqn:Hh.
  - rewrite filter_cons_True by assumption. reflexivity.
  - rewrite filter_cons_False by congruence. exact IH.
Qed.

Lemma search_basename h :
  Re.re_search TORRENT_NAME_RE (basename h) = true ->
  Re.re_search TORRENT_NAME_RE h = true.
Proof.
  destruct (basename_is_suffix h) as [pre Hpre]. intros H.
  rewrite Hpre. now apply search_items_app.
Qed.

Lemma absolutize_cases href :
  (startswith href (lit "//") = true -> absolutize href = lit "https:" ++ href) /\
  (startswith href (lit "//") = false -> startswith href (lit "/") = true ->
     absolutize href = lit "https://meta.wikimedia.org" ++ href) /\
  (startswith href (lit "/") = false -> absolutize href = href).
Proof.
  unfold absolutize. repeat split.
  - now intros ->.
  - now intros -> ->.
  - intros H. rewrite H.
    destruct (startswith href (lit "//")) eqn:H2; [|reflexivity].
    apply startswith_spec in H2 as [t ->]. discriminate.
Qed.

(** The result is an absolute URL exactly when the href begins with a
    slash or is absolute itself; any other href is handed back as it is. *)
Lemma absolutize_absolute href :
  is_absolute_url (absolutize href) = true <->
  startswith href (lit "/") = true \/ is_absolute_url href = true.
Proof.
  unfold absolutize. destruct (startswith href (lit "//")) eqn:H2.
  - apply startswith_spec in H2 as [t ->]. split; intros _; [left|]; reflexivity.
  - destruct (startswith href (lit "/")) eqn:H1.
    + split; intros _; [left|]; reflexivity.
    + split; [now right | intros [H|H]; [discriminate | exact H]].
Qed.

Lemma latest_torrent_url_run E st r :
  http E META_URL = Some r ->
  latest_torrent_url E st =
  (match scan_links (find_all_a_href (document r)) with
   | Some url => Ok url
   | None => Raise (RuntimeError NO_LINK_MESSAGE)
   end,
   add_call (RequestsGet META_URL false 30) (add_log INFO MsgFetchingIndex st)).
Proof.
  intros H. unfold latest_torrent_url, requests_get, bind, logging_info, call.
  rewrite H. unfold ret, raise.
  now destruct (scan_links (find_all_a_href (document r))).
Qed.

(** What the resolver does on a page of anchors: the first href that the
    pattern accepts, with the prefix its first characters call for. *)
Lemma latest_torrent_url_first_match E st r hs :
  http E META_URL = Some r -> document r = anchor <$> hs ->
  (latest_torrent_url E st).1 =
  match head (filter (fun h => Re.re_search TORRENT_NAME_RE h = true) hs) with
  | Some h => Ok (absolutize h)
  | None => Raise (RuntimeError NO_LINK_MESSAGE)
  end.
Proof.
  intros H Hd. rewrite (latest_torrent_url_run _ _ _ H), Hd. cbn [fst].
  rewrite find_all_anchors, scan_links_anchors.
  now destruct (head _).
Qed.

(** C1 (the code at the failing input).  On a page whose only matching
    link is a relative href without a leading slash, the resolver returns
    that href as it stands, and it is not an absolute URL. *)
Theorem latest_torrent_url_relative_href :
  (latest_torrent_url (web_env [anchor relative_href] None) empty_state).1
    = Ok relative_href /\
  is_absolute_url relative_href = false.
Proof.
  split; [|reflexivity].
  rewrite (latest_torrent_url_first_match _ _ (mkResponse 200 [] [anchor relative_href])
             [relative_href]) by reflexivity.
  reflexivity.
Qed.

(** C3, as amended.  The resolver picks the first anchor whose whole href
    the pattern accepts when searched: the href contains [enwiki-], later
    [pages-articles-multistream], and ends in [.torrent] (up to case, an
    optional final line feed, and no line feed in between).  An href whose
    trailing path segment matches is therefore selected, but the match may
    as well begin in an earlier segment. *)
Theorem resolver_selects_on_whole_href :
  (forall hs,
     scan_links (find_all_a_href (anchor <$> hs)) =
     absolutize <$> head (filter (fun h => Re.re_search TORRENT_NAME_RE h = true) hs)) /\
  (forall h, Re.re_search TORRENT_NAME_RE h = true <-> torrent_link h) /\
  (forall h, Re.re_search TORRENT_NAME_RE (basename h) = true ->
             Re.re_search TORRENT_NAME_RE h = true).
Proof.
  split; [|split].
  - intros hs. rewrite find_all_anchors. apply scan_links_anchors.
  - exact torrent_search_spec.
  - exact search_basename.
Qed.

Lemma resolver_selects_on_whole_href_witness :
  Re.re_search TORRENT_NAME_RE
    (basename (lit "https://dl.example/t/enwiki-20240201-pages-articles-multistream.xml.bz2.torrent")) = true /\
  Re.re_search TORRENT_NAME_RE
    (lit "https://dl.example/t/enwiki-20240201-pages-articles-multistream.xml.bz2.torrent") = true.
Proof.
  split; [reflexivity|].
  apply (proj2 (proj2 resolver_selects_on_whole_href)). reflexivity.
Defined.

(** C3 as stated fails: this href is selected although its trailing path
    segment, [x.torrent], does not match the pattern. *)
Lemma resolver_selects_beyond_last_segment :
  scan_links (find_all_a_href [anchor split_href]) = Some split_href /\
  basename split_href = lit "x.torrent" /\
  Re.re_search TORRENT_NAME_RE (basename split_href) = false.
Proof.
  split; [|split; reflexivity].
  change [anchor split_href] with (anchor <$> [split_href]).
  rewrite find_all_anchors, scan_links_anchors. reflexivity.
Qed.

(** ** Running the monad *)

Ltac sproj :=
  cbn [fs jobs loglevel logged calls add_call set_fs add_log add_job set_loglevel fst snd].

Ltac sunf :=
  unfold set_fs, add_call, add_log, add_job, set_loglevel;
  cbn [fs jobs loglevel logged calls].

Ltac mrun :=
  cbv beta iota zeta delta [bind call ret raise logging_info logging_error negb];
  sproj.

(** ** The fetcher *)

Lemma chunked_concat n fuel (b : bytes) :
  (0 < n)%nat -> (length b <= fuel)%nat -> concat (chunked fuel n b) = b.
Proof.
  intros Hn. revert b. induction fuel as [|fuel IH]; intros b Hb.
  - destruct b; [reflexivity | simpl in Hb; lia].
  - destruct b as [|x b]; [reflexivity|].
    cbn [chunked concat]. rewrite IH.
    + apply take_drop.
    + rewrite length_drop. simpl in *. lia.
Qed.

Lemma iter_content_concat n (b : bytes) :
  (0 < n)%nat -> concat (iter_content n b) = b.
Proof. intros Hn. now apply chunked_concat. Qed.

Lemma write_chunks_run E fn chunks st c :
  fs st !! fn = Some (File c (now E)) ->
  write_chunks E fn chunks st =
  (Ok tt, mkState (<[fn := File (c ++ concat chunks) (now E)]> (fs st)) (jobs st)
            (loglevel st) (logged st) (calls st ++ (FileWrite fn <$> chunks))).
Proof.
  revert st c. induction chunks as [|ch chunks IH]; intros st c Hfn.
  - cbn. rewrite !app_nil_r, insert_id by assumption. now destruct st.
  - cbn [write_chunks]. unfold file_write. mrun.
    erewrite IH.
    + sproj. f_equal. f_equal.
      * cbn [concat]. rewrite <- app_assoc.
        apply map_eq. intros q. destruct (decide (fn = q)) as [<-|Hq].
        -- now rewrite !lookup_insert_eq.
        -- rewrite !lookup_insert_ne by assumption. now rewrite lookup_alter_ne.
      * rewrite fmap_cons, <- app_assoc. reflexivity.
    + sproj. rewrite lookup_alter_eq, Hfn. reflexivity.
Qed.

Lemma open_wb_run E p st :
  can_open_wb (fs st) p = true ->
  open_wb E p st =
  (Ok tt, set_fs (insert p (File [] (now E))) (add_call (OpenWrite p) st)).
Proof.
  unfold can_open_wb, open_wb, is_dir. mrun.
  destruct (node_at (fs st) p) as [[c t|]|]; [reflexivity | discriminate |].
  destruct (node_at (fs st) (parent p)) as [[c t|]|]; (reflexivity || discriminate).
Qed.

Lemma download_torrent_run E st url r :
  let fn := joinpath (gettempdir E) (basename url) in
  http E url = Some r ->
  can_open_wb (fs st) fn = true ->
  download_torrent E url st =
  if http_error_status (status_code r) then
    (Raise (HTTPError (status_code r)),
     mkState (<[fn := File [] (now E)]> (fs st)) (jobs st) (loglevel st)
       (logged st ++ [(INFO, MsgDownloading url fn)])
       (calls st ++ [RequestsGet url true 60; OpenWrite fn]))
  else
    (Ok fn,
     mkState (<[fn := File (content r) (now E)]> (fs st)) (jobs st) (loglevel st)
       (logged st ++ [(INFO, MsgDownloading url fn)])
       (calls st ++ [RequestsGet url true 60; OpenWrite fn] ++
        (FileWrite fn <$> iter_content (Z.to_nat 16384) (content r)))).
Proof.
  intros fn Hr Hopen. unfold download_torrent, requests_get. fold fn. mrun.
  rewrite Hr. mrun. rewrite open_wb_run by exact Hopen. sproj.
  unfold raise_for_status, http_error_status.
  destruct ((400 <=? status_code r) && (status_code r <? 600)); mrun.
  - sunf. rewrite <- !app_assoc. reflexivity.
  - change (Z.shiftl 1 14) with 16384.
    erewrite write_chunks_run by (sproj; apply lookup_insert_eq).
    sunf. rewrite insert_insert_eq, iter_content_concat by lia.
    rewrite <- !app_assoc. reflexivity.
Qed.

Lemma http_error_status_spec status :
  http_error_status status = true <-> 400 <= status < 600.
Proof. unfold http_error_status. rewrite andb_true_iff, Z.leb_le, Z.ltb_lt. tauto. Qed.

Lemma joinpath_proper d name :
  name <> [] -> name <> lit "." -> name <> lit ".." -> joinpath d name = d ++ [name].
Proof.
  intros H1 H2 H3. unfold joinpath.
  destruct (decide (name = [] \/ name = lit ".")) as [[?|?]|_]; [contradiction..|].
  destruct (decide (name = lit "..")); [contradiction | reflexivity].
Qed.

(** C4, as amended.  When the request yields a response and the
    destination in the temporary directory can be opened for writing,
    [download_torrent] fails exactly when the status is 4xx or 5xx (what
    [raise_for_status] raises on); on every other status, 1xx and 3xx
    included, it leaves the full body in the file named after the URL's
    final path segment, whatever was there before, and returns its path. *)
Theorem download_torrent_outcome E st url r :
  http E url = Some r ->
  can_open_wb (fs st) (joinpath (gettempdir E) (basename url)) = true ->
  let fn := joinpath (gettempdir E) (basename url) in
  let out := download_torrent E url st in
  (forall e, out.1 = Raise e <->
             400 <= status_code r < 600 /\ e = HTTPError (status_code r)) /\
  (~ 400 <= status_code r < 600 ->
   out.1 = Ok fn /\ fs out.2 = <[fn := File (content r) (now E)]> (fs st)) /\
  (basename url <> [] -> basename url <> lit "." -> basename url <> lit ".." ->
   fn = gettempdir E ++ [basename url]).
Proof.
  intros Hr Hopen fn out. subst out.
  rewrite (download_torrent_run E st url r Hr Hopen). fold fn.
  pose proof (http_error_status_spec (status_code r)) as Hs.
  destruct (http_error_status (status_code r)); cbn [fst snd fs].
  - split; [|split].
    + intros e. split.
      * intros [= <-]. split; [now apply Hs | reflexivity].
      * now intros [_ ->].
    + intros Hn. exfalso. apply Hn. now apply Hs.
    + apply joinpath_proper.
  - split; [|split].
    + intros e. split; [discriminate|]. intros [H _]. apply Hs in H. discriminate.
    + auto.
    + apply joinpath_proper.
Qed.

Lemma download_torrent_outcome_witness :
  http (web_env [] (Some not_modified)) torrent_url = Some not_modified /\
  can_open_wb (fs tmp_state)
    (joinpath (gettempdir (web_env [] (Some not_modified))) (basename torrent_url)) = true /\
  (download_torrent (web_env [] (Some not_modified)) torrent_url tmp_state).1 =
    Ok [lit "tmp"; lit "x.torrent"].
Proof.
  split; [reflexivity|]. split; [reflexivity|].
  apply (download_torrent_outcome (web_env [] (Some not_modified)) tmp_state
           torrent_url not_modified eq_refl eq_refl).
  cbn. lia.
Defined.

(** C4 as stated fails: a 304 response is not 2xx, yet the download
    succeeds and returns the path of the written file. *)
Lemma download_succeeds_on_non_2xx :
  is_2xx (status_code not_modified) = false /\
  (download_torrent (web_env [] (Some not_modified)) torrent_url tmp_state).1 =
    Ok [lit "tmp"; lit "x.torrent"] /\
  fs (download_torrent (web_env [] (Some not_modified)) torrent_url tmp_state).2
    !! [lit "tmp"; lit "x.torrent"] = Some (File (content not_modified) 0).
Proof.
  rewrite (download_torrent_run (web_env [] (Some not_modified)) tmp_state torrent_url
             not_modified eq_refl eq_refl).
  split; [reflexivity|]. split; [reflexivity|].
  cbn [http_error_status status_code not_modified fst snd fs].
  apply lookup_insert_eq.
Qed.

(** C9.  The destination is opened, hence truncated, before the status
    is looked at: on a response that is not 2xx, a file already at the
    temporary path is overwritten in every case, and when the status
    error is raised (4xx, 5xx) it is raised after the open, leaving the
    file empty.  No other error arises at that point. *)
Theorem download_truncates_before_status_check E st url r c0 t0 :
  http E url = Some r ->
  is_2xx (status_code r) = false ->
  node_at (fs st) (joinpath (gettempdir E) (basename url)) = Some (File c0 t0) ->
  let fn := joinpath (gettempdir E) (basename url) in
  let out := download_torrent E url st in
  (exists written, fs out.2 = <[fn := File written (now E)]> (fs st)) /\
  (http_error_status (status_code r) = true ->
   out.1 = Raise (HTTPError (status_code r)) /\
   fs out.2 = <[fn := File [] (now E)]> (fs st) /\
   calls out.2 = calls st ++ [RequestsGet url true 60; OpenWrite fn]) /\
  (forall e, out.1 = Raise e ->
   e = HTTPError (status_code r) /\ http_error_status (status_code r) = true).
Proof.
  intros Hr _ Hfile fn out. subst out.
  assert (Hopen : can_open_wb (fs st) fn = true).
  { unfold can_open_wb. fold fn in Hfile. now rewrite Hfile. }
  rewrite (download_torrent_run E st url r Hr Hopen). fold fn.
  destruct (http_error_status (status_code r)); cbn [fst snd fs calls].
  - split; [eauto|]. split; [auto|]. intros e [= <-]. auto.
  - split; [eauto|]. split; [discriminate|]. intros e. discriminate.
Qed.

Lemma download_truncates_before_status_check_witness :
  http (web_env [] (Some not_found)) torrent_url = Some not_found /\
  is_2xx (status_code not_found) = false /\
  node_at (fs stale_state)
    (joinpath (gettempdir (web_env [] (Some not_found))) (basename torrent_url))
    = Some (File [7%N; 7%N] 0) /\
  (download_torrent (web_env [] (Some not_found)) torrent_url stale_state).1
    = Raise (HTTPError 404).
Proof.
  split; [reflexivity|]. split; [reflexivity|]. split; [reflexivity|].
  apply (download_truncates_before_status_check (web_env [] (Some not_found)) stale_state
           torrent_url not_found [7%N; 7%N] 0 eq_refl eq_refl eq_refl).
  reflexivity.
Defined.

(** ** Directories *)

Lemma parent_snoc (d : path) x : parent (d ++ [x]) = d.
Proof. apply removelast_last. Qed.

Lemma prefix_snoc_cases (q d : path) x :
  q `prefix_of` d ++ [x] -> q `prefix_of` d \/ q = d ++ [x].
Proof.
  intros [k Hk]. destruct k as [|y k _] using rev_ind.
  - right. now rewrite app_nil_r in Hk.
  - left. rewrite app_assoc in Hk. apply app_inj_tail in Hk as [-> _].
    now exists k.
Qed.

Lemma node_at_nonroot m (p : path) : p <> [] -> node_at m p = m !! p.
Proof. now destruct p. Qed.

Lemma node_at_None m (p : path) : node_at m p = None -> p <> [] /\ m !! p = None.
Proof. destruct p; [discriminate | intros H; split; [discriminate | exact H]]. Qed.

Lemma node_at_insert_ne m (p q : path) n :
  p <> q -> node_at (<[p := n]> m) q = node_at m q.
Proof. intros H. destruct q; [reflexivity|]. cbn. now rewrite lookup_insert_ne. Qed.

Lemma node_at_insert_eq m (p : path) n :
  p <> [] -> node_at (<[p := n]> m) p = Some n.
Proof. intros H. rewrite node_at_nonroot by assumption. apply lookup_insert_eq. Qed.

Lemma is_dir_insert_dir m (p q : path) :
  is_dir m q = true -> is_dir (<[p := Dir]> m) q = true.
Proof.
  unfold is_dir. destruct q as [|y q]; [reflexivity|]. cbn.
  destruct (decide (p = y :: q)) as [->|Hne].
  - now rewrite lookup_insert_eq.
  - now rewrite lookup_insert_ne.
Qed.

Lemma wf_ancestors m (p : path) :
  fs_wf m -> is_dir m p = true -> forall q, q `prefix_of` p -> is_dir m q = true.
Proof.
  intros Hwf. induction p as [|x d IH] using rev_ind; intros Hp q Hq.
  - apply prefix_nil_inv in Hq as ->. reflexivity.
  - apply prefix_snoc_cases in Hq as [Hq | ->]; [|assumption].
    apply IH; [|assumption].
    unfold is_dir in Hp. rewrite node_at_nonroot in Hp by (now destruct d).
    destruct (m !! (d ++ [x])) as [n|] eqn:Hn; [|discriminate].
    apply Hwf in Hn. now rewrite parent_snoc in Hn.
Qed.

Lemma wf_insert_dir m (p : path) :
  fs_wf m -> is_dir m (parent p) = true -> fs_wf (<[p := Dir]> m).
Proof.
  intros Hwf Hpar i n Hi. destruct (decide (p = i)) as [<-|Hne].
  - now apply is_dir_insert_dir.
  - rewrite lookup_insert_ne in Hi by assumption.
    apply is_dir_insert_dir. now apply (Hwf i n).
Qed.

Lemma set_fs_id st : set_fs (fun _ => fs st) st = st.
Proof. now destruct st. Qed.

(** When the walk meets a regular file, that file is an ancestor. *)
Lemma under_file_from_prefix m rest : forall pre,
  under_file_from m pre rest = true ->
  exists q, q `prefix_of` pre ++ rest /\ is_file m q = true.
Proof.
  induction rest as [|x rest IH]; intros pre H; [discriminate|].
  cbn [under_file_from] in H.
  destruct (node_at m pre) as [[c t|]|] eqn:Hn; try discriminate.
  - exists pre. split; [now apply prefix_app_r|]. unfold is_file. now rewrite Hn.
  - apply IH in H as (q & Hq & Hf). exists q.
    rewrite <- app_assoc in Hq. split; assumption.
Qed.

Lemma under_file_prefix m p :
  under_file m p = true -> exists q, q `prefix_of` p /\ is_file m q = true.
Proof. apply (under_file_from_prefix m p []). Qed.

Lemma mkdir_rev_spec rp : forall st,
  fs_wf (fs st) ->
  exists r m', mkdir_rev true true rp st = (r, set_fs (fun _ => m') st) /\
    fs_wf m' /\
    (forall q n, fs st !! q = Some n -> m' !! q = Some n) /\
    (forall q, ~ q `prefix_of` rev rp -> m' !! q = fs st !! q) /\
    (r = Ok tt -> is_dir m' (rev rp) = true) /\
    ((forall q, q `prefix_of` rev rp -> is_file (fs st) q = false) -> r = Ok tt).
Proof.
  induction rp as [|x rparent IH]; intros st Hwf.
  - exists (Ok tt), (fs st). rewrite set_fs_id. cbn. auto 10.
  - cbn [mkdir_rev rev]. set (p := rev rparent ++ [x]).
    assert (Hp : p <> []) by (subst p; now destruct (rev rparent)).
    assert (Hpar : parent p = rev rparent) by apply parent_snoc.
    unfold os_mkdir. rewrite Hpar.
    destruct (node_at (fs st) p) as [n|] eqn:Hn.
    { (* the path exists *)
      unfold mkdir_oserror. cbn [andb]. exists (if is_dir (fs st) p then Ok tt else Raise (FileExistsError p)), (fs st).
      rewrite set_fs_id. split; [now destruct (is_dir (fs st) p)|].
      split; [assumption|]. split; [auto|]. split; [auto|]. split.
      - destruct (is_dir (fs st) p); [reflexivity | discriminate].
      - intros Hnf. specialize (Hnf p (reflexivity _)).
        unfold is_file in Hnf. unfold is_dir. rewrite Hn in *.
        destruct n; [discriminate | reflexivity]. }
    apply node_at_None in Hn as [_ Hn].
    destruct (node_at (fs st) (rev rparent)) as [[c t|]|] eqn:Hparent.
    + (* the parent is a regular file *)
      unfold mkdir_oserror.
      assert (Hd : is_dir (fs st) p = false).
      { unfold is_dir. rewrite node_at_nonroot, Hn by assumption. reflexivity. }
      rewrite Hd. cbn [andb]. exists (Raise (NotADirectoryError p)), (fs st).
      rewrite set_fs_id. split; [reflexivity|].
      split; [assumption|]. split; [auto|]. split; [auto|]. split; [discriminate|].
      intros Hnf. specialize (Hnf (rev rparent) (prefix_app_r _ _ [x] (reflexivity _))).
      unfold is_file in Hnf. rewrite Hparent in Hnf. discriminate.
    + (* the parent is a directory *)
      exists (Ok tt), (<[p := Dir]> (fs st)). split; [reflexivity|].
      split. { apply wf_insert_dir; [assumption|]. rewrite Hpar. unfold is_dir. now rewrite Hparent. }
      split. { intros q n Hq. rewrite lookup_insert_ne; [assumption|]. congruence. }
      split. { intros q Hq. rewrite lookup_insert_ne; [reflexivity|]. intros <-. now apply Hq. }
      split. { intros _. unfold is_dir. now rewrite node_at_insert_eq. }
      reflexivity.
    + (* the parent is missing *)
      unfold missing_error. destruct (under_file (fs st) p) eqn:Hu.
      { (* below a regular file *)
        unfold mkdir_oserror.
        assert (Hd : is_dir (fs st) p = false).
        { unfold is_dir. rewrite node_at_nonroot, Hn by assumption. reflexivity. }
        rewrite Hd. cbn [andb]. exists (Raise (NotADirectoryError p)), (fs st).
        rewrite set_fs_id. split; [reflexivity|].
        split; [assumption|]. split; [auto|]. split; [auto|]. split; [discriminate|].
        intros Hnf. apply under_file_prefix in Hu as (q & Hq & Hf).
        rewrite (Hnf q Hq) in Hf. discriminate. }
      (* create the parent first *)
      cbn [negb].
      destruct (IH st Hwf) as (r & m1 & -> & Hwf1 & Hkeep & Hframe & Hok & Hsucc).
      assert (Hn1 : m1 !! p = None).
      { rewrite Hframe; [assumption|]. apply prefix_snoc_not. }
      destruct r as [[]|e].
      * specialize (Hok eq_refl).
        sproj. rewrite node_at_nonroot, Hn1 by assumption.
        unfold is_dir in Hok.
        destruct (node_at m1 (rev rparent)) as [[c t|]|] eqn:Hpar1; try discriminate.
        exists (Ok tt), (<[p := Dir]> m1). split; [reflexivity|].
        split. { apply wf_insert_dir; [assumption|]. rewrite Hpar. unfold is_dir. now rewrite Hpar1. }
        split. { intros q n Hq. rewrite lookup_insert_ne; [now apply Hkeep|]. congruence. }
        split. { intros q Hq. rewrite lookup_insert_ne.
                 - apply Hframe. intros Hq'. apply Hq. now apply prefix_app_r.
                 - intros <-. now apply Hq. }
        split. { intros _. unfold is_dir. now rewrite node_at_insert_eq. }
        reflexivity.
      * exists (Raise e), m1. split; [reflexivity|].
        split; [assumption|]. split; [assumption|].
        split. { intros q Hq. apply Hframe. intros Hq'. apply Hq. now apply prefix_app_r. }
        split; [discriminate|].
        intros Hnf. exfalso. assert (Raise e = Ok tt :> Result unit); [|discriminate].
        apply Hsucc. intros q Hq. apply Hnf. now apply prefix_app_r.
Qed.

(** ** The submitter *)

Ltac notin_calls :=
  let H := fresh in
  intros H; repeat (apply elem_of_cons in H as [H|H]; [discriminate|]);
  now apply elem_of_nil in H.

(** C5.  When the WebUI rejects the credentials, [push_to_qb] raises the
    login error at once: the login is its only call, no [torrents_add]
    call is made, and the remote jobs and the filesystem are as before. *)
Theorem push_to_qb_auth_failure E st tp host port user pw sd cat :
  qb_auth E host port user pw = AuthRejected ->
  let out := push_to_qb E tp host port user pw sd cat st in
  out.1 = Raise LoginFailed /\
  calls out.2 = calls st ++ [QbAuthLogIn host port user pw] /\
  (forall j, QbTorrentsAdd j ∉ drop (length (calls st)) (calls out.2)) /\
  jobs out.2 = jobs st /\
  fs out.2 = fs st.
Proof.
  intros Hauth out. subst out. unfold push_to_qb, auth_log_in. mrun.
  rewrite Hauth. mrun.
  repeat split. intros j. rewrite drop_app_length. notin_calls.
Qed.

Lemma push_to_qb_auth_failure_witness :
  qb_auth rejecting_env (lit "localhost") 8080 (lit "admin") (lit "wrong") = AuthRejected /\
  (push_to_qb rejecting_env [lit "tmp"; lit "x.torrent"] (lit "localhost") 8080
     (lit "admin") (lit "wrong") save_dir_example (lit "wikipedia") fresh_state).1
    = Raise LoginFailed.
Proof.
  split; [reflexivity|].
  apply (push_to_qb_auth_failure rejecting_env fresh_state [lit "tmp"; lit "x.torrent"]
           (lit "localhost") 8080 (lit "admin") (lit "wrong") save_dir_example
           (lit "wikipedia") eq_refl).
Defined.

(** C10.  When the save directory is already a directory, [push_to_qb]
    makes no [mkdir] call and leaves the filesystem as it found it,
    whatever the login and the submission do. *)
Theorem push_to_qb_existing_dir E st tp host port user pw sd cat :
  is_dir (fs st) sd = true ->
  let out := push_to_qb E tp host port user pw sd cat st in
  fs out.2 = fs st /\
  (forall p, PathMkdir p ∉ drop (length (calls st)) (calls out.2)).
Proof.
  intros Hdir out. subst out.
  unfold push_to_qb, auth_log_in, app_version, app_web_api_version, path_is_dir,
    open_rb, torrents_add.
  mrun. destruct (qb_auth E host port user pw); mrun.
  2,3: (split; [reflexivity|]; intros p; rewrite drop_app_length; notin_calls).
  rewrite Hdir. mrun.
  destruct (node_at (fs st) tp) as [[c t|]|]; mrun.
  2,3: (split; [reflexivity|]; intros p; rewrite <- !app_assoc, drop_app_length; notin_calls).
  destruct (qb_torrents_add E _); mrun;
    (split; [reflexivity|]; intros p; rewrite <- !app_assoc, drop_app_length; notin_calls).
Qed.

Lemma push_to_qb_existing_dir_witness :
  is_dir (fs ready_state) save_dir_example = true /\
  fs (push_to_qb (web_env [] None) [lit "tmp"; lit "x.torrent"] (lit "localhost") 8080
        (lit "admin") (lit "adminadmin") save_dir_example (lit "wikipedia") ready_state).2
    = fs ready_state.
Proof.
  split; [reflexivity|].
  apply (push_to_qb_existing_dir (web_env [] None) ready_state [lit "tmp"; lit "x.torrent"]
           (lit "localhost") 8080 (lit "admin") (lit "adminadmin") save_dir_example
           (lit "wikipedia") eq_refl).
Defined.

(** C6.  When the login succeeds and the save directory does not exist,
    [push_to_qb] calls [mkdir(parents=True)] right after the directory
    test and before anything else; the only calls that may follow are the
    read of the torrent file and [torrents_add], neither of which touches
    the filesystem.  So a [torrents_add] call is only ever made once the
    directory and all its parents exist.  When no ancestor is a regular
    file the creation succeeds, and with the torrent file in place the two
    calls that follow are the read and the [torrents_add]. *)
Theorem push_to_qb_creates_save_dir E st tp host port user pw sd cat :
  qb_auth E host port user pw = AuthAccepted ->
  fs_wf (fs st) ->
  node_at (fs st) sd = None ->
  let out := push_to_qb E tp host port user pw sd cat st in
  exists rest,
    calls out.2 = calls st ++
      [QbAuthLogIn host port user pw; QbAppVersion; QbAppWebApiVersion;
       PathIsDir sd; PathMkdir sd] ++ rest /\
    Forall (fun c => c = OpenRead tp \/ exists j, c = QbTorrentsAdd j) rest /\
    (forall j, QbTorrentsAdd j ∈ rest ->
       forall q, q `prefix_of` sd -> is_dir (fs out.2) q = true) /\
    ((forall q, q `prefix_of` sd -> is_file (fs st) q = false) ->
       (forall q, q `prefix_of` sd -> is_dir (fs out.2) q = true) /\
       (forall c t, node_at (fs st) tp = Some (File c t) ->
          rest = [OpenRead tp; QbTorrentsAdd (mkJob c sd cat false false)])).
Proof.
  intros Hauth Hwf Hsd out. subst out.
  unfold push_to_qb, auth_log_in, app_version, app_web_api_version, path_is_dir,
    path_mkdir, open_rb, torrents_add.
  mrun. rewrite Hauth. mrun.
  assert (Hnd : is_dir (fs st) sd = false) by (unfold is_dir; now rewrite Hsd).
  rewrite Hnd. mrun.
  match goal with |- context [mkdir_rev true true (rev sd) ?s] => set (st1 := s) end.
  destruct (mkdir_rev_spec (rev sd) st1 Hwf) as (r & m' & -> & Hwf' & Hkeep & _ & Hok & Hsucc).
  rewrite rev_involutive in Hok, Hsucc. subst st1.
  assert (Htp : forall c t, node_at (fs st) tp = Some (File c t) ->
                            node_at m' tp = Some (File c t)).
  { intros c t H. destruct tp; [discriminate|]. now apply Hkeep. }
  destruct r as [[]|e]; mrun.
  - (* the directory was created *)
    specialize (Hok eq_refl).
    pose proof (wf_ancestors m' sd Hwf' Hok) as Hall.
    destruct (node_at m' tp) as [[c t|]|] eqn:Hnode; mrun.
    + destruct (qb_torrents_add E _); mrun;
        (eexists; split; [rewrite <- !app_assoc; reflexivity|];
         split; [repeat constructor; eauto|]; split; [auto|];
         intros _; split; [assumption|]; intros c' t' H'; apply Htp in H';
         injection H' as <- <-; reflexivity).
    + eexists; split; [rewrite <- !app_assoc; reflexivity|].
      split; [repeat constructor; eauto|]. split; [auto|].
      intros _. split; [assumption|]. intros c' t' H'. apply Htp in H'. discriminate.
    + eexists; split; [rewrite <- !app_assoc; reflexivity|].
      split; [repeat constructor; eauto|]. split; [auto|].
      intros _. split; [assumption|]. intros c' t' H'. apply Htp in H'. discriminate.
  - (* mkdir raised *)
    exists []. split; [rewrite <- !app_assoc; reflexivity|].
    split; [constructor|].
    split. { intros j Hj. now apply elem_of_nil in Hj. }
    intros Hnf. specialize (Hsucc Hnf). discriminate.
Qed.

Lemma fresh_state_wf : fs_wf (fs fresh_state).
Proof. apply (bool_decide_unpack _). vm_compute. exact I. Defined.

Lemma push_to_qb_creates_save_dir_witness :
  qb_auth (web_env [] None) (lit "localhost") 8080 (lit "admin") (lit "adminadmin")
    = AuthAccepted /\
  fs_wf (fs fresh_state) /\
  node_at (fs fresh_state) save_dir_example = None /\
  exists rest,
    calls (push_to_qb (web_env [] None) [lit "tmp"; lit "x.torrent"] (lit "localhost")
             8080 (lit "admin") (lit "adminadmin") save_dir_example (lit "wikipedia")
             fresh_state).2 =
    calls fresh_state ++
      [QbAuthLogIn (lit "localhost") 8080 (lit "admin") (lit "adminadmin");
       QbAppVersion; QbAppWebApiVersion;
       PathIsDir save_dir_example; PathMkdir save_dir_example] ++ rest.
Proof.
  split; [reflexivity|]. split; [exact fresh_state_wf|]. split; [reflexivity|].
  destruct (push_to_qb_creates_save_dir (web_env [] None) fresh_state
              [lit "tmp"; lit "x.torrent"] (lit "localhost") 8080 (lit "admin")
              (lit "adminadmin") save_dir_example (lit "wikipedia")
              eq_refl fresh_state_wf eq_refl) as (rest & H & _).
  exists rest. exact H.
Defined.

(** The run of C6 on [fresh_state], evaluated: both missing directories
    are created and the job is added afterwards. *)
Example push_to_qb_fresh_state :
  let out := push_to_qb (web_env [] None) [lit "tmp"; lit "x.torrent"] (lit "localhost")
               8080 (lit "admin") (lit "adminadmin") save_dir_example (lit "wikipedia")
               fresh_state in
  out.1 = Ok tt /\
  is_dir (fs out.2) [lit "mnt"; lit "wiki"] = true /\
  is_dir (fs out.2) save_dir_example = true /\
  jobs out.2 = [mkJob [100%N; 56%N] save_dir_example (lit "wikipedia") false false].
Proof. vm_compute. auto. Qed.

(** ** The pruner *)

Lemma child_name_spec (d p : path) n : child_name d p = Some n <-> p = d ++ [n].
Proof.
  revert p. induction d as [|x d IH]; intros p.
  - destruct p as [|y [|z p]]; cbn; split; intros H; try discriminate; congruence.
  - destruct p as [|y p]; cbn.
    + split; discriminate.
    + destruct (decide (x = y)) as [->|Hne].
      * rewrite IH. split; [now intros -> | now intros [= ->]].
      * split; [discriminate | intros [= ? _]; congruence].
Qed.

Lemma child_name_snoc (d : path) n : child_name d (d ++ [n]) = Some n.
Proof. now apply child_name_spec. Qed.

Lemma elem_of_listdir m (d : path) n :
  n ∈ listdir m d <-> is_Some (m !! (d ++ [n])).
Proof.
  unfold listdir. rewrite list_elem_of_omap. split.
  - intros (p & Hp & Hc). apply child_name_spec in Hc as ->.
    apply list_elem_of_fmap in Hp as ([p x] & -> & Hpx).
    apply elem_of_map_to_list in Hpx. cbn. eauto.
  - intros [x Hx]. exists (d ++ [n]). split; [|apply child_name_snoc].
    apply list_elem_of_fmap. exists (d ++ [n], x). split; [reflexivity|].
    now apply elem_of_map_to_list.
Qed.

Lemma NoDup_omap_inj {A B} (f : A -> option B) (l : list A) :
  (forall x y z, f x = Some z -> f y = Some z -> x = y) ->
  NoDup l -> NoDup (omap f l).
Proof.
  intros Hinj. induction 1 as [|x l Hx Hl IH]; cbn; [constructor|].
  destruct (f x) as [z|] eqn:Hz; [|assumption].
  constructor; [|assumption].
  intros (y & Hy & Hfy)%list_elem_of_omap.
  now rewrite (Hinj _ _ _ Hz Hfy) in Hx.
Qed.

Lemma NoDup_listdir m (d : path) : NoDup (listdir m d).
Proof.
  apply NoDup_omap_inj; [|apply NoDup_fst_map_to_list].
  intros p q n Hp%child_name_spec Hq%child_name_spec. congruence.
Qed.

Lemma prunable_spec m (d : path) cutoff (p : path) :
  prunable m d cutoff p = true <->
  exists name c t,
    p = d ++ [name] /\ m !! p = Some (File c t) /\
    Re.re_match DUMP_FILE_RE name = true /\
    endswith name (lit ".!qB") = false /\ t < cutoff.
Proof.
  unfold prunable. split.
  - destruct (child_name d p) as [name|] eqn:Hc; [|discriminate].
    apply child_name_spec in Hc.
    destruct (m !! p) as [[c t|]|]; try discriminate.
    rewrite !andb_true_iff, negb_true_iff, Z.ltb_lt. intros [[? ?] ?].
    exists name, c, t. auto.
  - intros (name & c & t & -> & -> & Hm & He & Ht).
    rewrite child_name_snoc, Hm, He. cbn. now apply Z.ltb_lt.
Qed.

Lemma prunable_agree m1 m2 (d : path) cutoff (p : path) :
  m1 !! p = m2 !! p -> prunable m1 d cutoff p = prunable m2 d cutoff p.
Proof. unfold prunable. now intros ->. Qed.

Lemma snoc_path_nonroot (d : path) (n : pystr) : d ++ [n] <> [].
Proof. now destruct d. Qed.

Lemma prune_loop_spec d c m0 names :
  mtimes_ok m0 d ->
  NoDup names ->
  forall removed st,
    (forall n, n ∈ names -> fs st !! (d ++ [n]) = m0 !! (d ++ [n])) ->
    let P := fun n => prunable m0 d c (d ++ [n]) = true in
    exists st',
      prune_loop d c names removed st =
        (Ok (removed + length (filter P names))%nat, st') /\
      (forall n, n ∈ names -> P n -> fs st' !! (d ++ [n]) = None) /\
      (forall p, (forall n, n ∈ names -> P n -> p <> d ++ [n]) ->
                 fs st' !! p = fs st !! p) /\
      (size (fs st') + length (filter P names) = size (fs st))%nat /\
      jobs st' = jobs st /\
      logged st' = logged st ++ ((fun n => (INFO, MsgRemoving n)) <$> filter P names).
Proof.
  intros Htimes Hnd. induction Hnd as [|n names Hn Hnd IH]; intros removed st Hinv P.
  - exists st. cbn. rewrite Nat.add_0_r, app_nil_r. repeat split; auto.
    intros ? H. now apply elem_of_nil in H.
  - assert (Hskip : ~ P n ->
      forall st1, fs st1 = fs st -> jobs st1 = jobs st -> logged st1 = logged st ->
      exists st',
        prune_loop d c names removed st1 =
          (Ok (removed + length (filter P (n :: names)))%nat, st') /\
        (forall n', n' ∈ n :: names -> P n' -> fs st' !! (d ++ [n']) = None) /\
        (forall p, (forall n', n' ∈ n :: names -> P n' -> p <> d ++ [n']) ->
                   fs st' !! p = fs st !! p) /\
        (size (fs st') + length (filter P (n :: names)) = size (fs st))%nat /\
        jobs st' = jobs st /\
        logged st' = logged st ++ ((fun n => (INFO, MsgRemoving n)) <$> filter P (n :: names))).
    { intros HnP st1 Hfs Hjobs Hlog.
      destruct (IH removed st1) as (st' & Hrun & Ha & Hb & Hsz & Hj & Hl).
      { intros n' Hn'. rewrite Hfs. apply Hinv. now right. }
      exists st'. rewrite filter_cons_False by assumption.
      rewrite Hfs, Hjobs, Hlog in *. repeat split; try assumption.
      - intros n' [->|Hn']%elem_of_cons HP; [contradiction | now apply Ha].
      - intros p Hp. apply Hb. intros n' Hn'. apply Hp. now right. }
    cbn [prune_loop]. unfold path_is_file, stat_mtime, path_unlink. mrun.
    unfold is_file. rewrite node_at_nonroot by apply snoc_path_nonroot.
    pose proof (Hinv n ltac:(left)) as Hn0.
    assert (HPn : P n <-> prunable (fs st) d c (d ++ [n]) = true).
    { unfold P. now rewrite (prunable_agree m0 (fs st)). }
    unfold prunable in HPn. rewrite child_name_snoc in HPn.
    destruct (fs st !! (d ++ [n])) as [[c0 t0|]|] eqn:Hnode; mrun.
    2,3: (apply Hskip; [rewrite HPn; discriminate | reflexivity..]).
    destruct (Re.re_match DUMP_FILE_RE n) eqn:Hm; mrun.
    2: (apply Hskip; [rewrite HPn; discriminate | reflexivity..]).
    destruct (endswith n (lit ".!qB")); mrun.
    1: (apply Hskip; [rewrite HPn; discriminate | reflexivity..]).
    rewrite node_at_nonroot, Hnode by apply snoc_path_nonroot. mrun.
    unfold datetime_fromtimestamp.
    rewrite (Htimes n c0 t0) by congruence. mrun.
    destruct (t0 <? c); mrun.
    2: (apply Hskip; [rewrite HPn; discriminate | reflexivity..]).
    rewrite node_at_nonroot, Hnode by apply snoc_path_nonroot. mrun.
    assert (HP : P n) by now apply HPn.
    match goal with |- context [prune_loop d c names (S removed) ?s] => set (st4 := s) end.
    destruct (IH (S removed) st4) as (st' & Hrun & Ha & Hb & Hsz & Hj & Hl).
    { intros n' Hn'. subst st4. sproj. rewrite lookup_delete_ne; [apply Hinv; now right|].
      intros [= <-]%app_inv_head. contradiction. }
    subst st4. sproj. unfold set_fs, add_call, add_log in Hb, Hsz, Hj, Hl. cbn [fs jobs logged] in Hb, Hsz, Hj, Hl.
    exists st'. rewrite filter_cons_True by assumption. cbn [length].
    subst P. cbv beta in *.
    split. { rewrite Hrun. do 2 f_equal. lia. }
    split.
    { intros n' [->|Hn']%elem_of_cons HP'; [|now apply Ha].
      rewrite Hb; [apply lookup_delete_eq|].
      intros n' Hn' _ [= <-]%app_inv_head. contradiction. }
    split.
    { intros p Hp. rewrite Hb.
      - apply lookup_delete_ne. intros <-. now apply (Hp n ltac:(left)).
      - intros n' Hn'. apply Hp. now right. }
    split.
    { rewrite map_size_delete_Some in Hsz by eauto.
      assert (size (fs st) <> 0)%nat; [|lia].
      intros H0. apply map_size_empty_inv in H0. rewrite H0 in Hnode.
      now rewrite lookup_empty in Hnode. }
    split; [assumption|].
    rewrite Hl, fmap_cons, <- app_assoc. reflexivity.
Qed.

(** Line 94 of the source: the cutoff, or the OverflowError. *)
Lemma prune_old_dumps_cutoff E d keep_days st :
  prune_old_dumps E d keep_days st =
  if retention_ok (now E) keep_days
  then (names <- path_iterdir d ;;
        removed <- prune_loop d (now E - keep_days * microseconds_per_day) names 0%nat ;;
        logging_info (MsgPruned removed)) st
  else (Raise OverflowError, st).
Proof.
  unfold prune_old_dumps, timedelta_days, datetime_sub, retention_ok.
  destruct (Z.abs keep_days <=? 999999999); [|reflexivity].
  cbn [andb]. unfold bind at 1. unfold ret at 1. unfold bind at 1.
  destruct ((datetime_min <=? now E - keep_days * microseconds_per_day) &&
            (now E - keep_days * microseconds_per_day <=? datetime_max)); reflexivity.
Qed.

(** A filesystem all of whose files carry a time that is a datetime. *)
Definition node_time_ok (n : node) : bool :=
  match n with File _ t => timestamp_ok t | Dir => true end.

Lemma mtimes_ok_all m d :
  map_Forall (fun _ n => node_time_ok n = true) m -> mtimes_ok m d.
Proof. intros H name c t Hl _. exact (H _ _ Hl). Qed.

(** C2, as amended.  On a directory, for a retention period whose
    cutoff, now minus the retention days, is a date that [datetime] holds,
    and dumps whose modification times [datetime.fromtimestamp] accepts,
    the pruner succeeds; afterwards exactly the prunable paths are gone,
    and every other path, child of the directory or not, is as before.
    The prunable paths are the direct children that are regular files,
    match the dump pattern, do not end in the in-progress marker, and are
    older than now minus the retention days.  The last record logged is
    the count, which is the number of entries that disappeared. *)
Theorem prune_old_dumps_spec E st d keep_days :
  is_dir (fs st) d = true ->
  retention_ok (now E) keep_days = true ->
  mtimes_ok (fs st) d ->
  let cutoff := now E - keep_days * microseconds_per_day in
  let out := prune_old_dumps E d keep_days st in
  out.1 = Ok tt /\
  (forall p, fs out.2 !! p = if prunable (fs st) d cutoff p then None else fs st !! p) /\
  (forall p, prunable (fs st) d cutoff p = true <->
     exists name c t,
       p = d ++ [name] /\ fs st !! p = Some (File c t) /\
       Re.re_match DUMP_FILE_RE name = true /\
       endswith name (lit ".!qB") = false /\ t < cutoff) /\
  exists n, last (logged out.2) = Some (INFO, MsgPruned n) /\
            (size (fs out.2) + n = size (fs st))%nat.
Proof.
  intros Hdir Hret Htimes cutoff out. subst out.
  rewrite prune_old_dumps_cutoff, Hret. unfold path_iterdir. fold cutoff. mrun.
  unfold is_dir in Hdir. destruct (node_at (fs st) d) as [[|]|]; try discriminate. mrun.
  destruct (prune_loop_spec d cutoff (fs st) (listdir (fs st) d) Htimes (NoDup_listdir _ _) 0%nat
              (add_call (PathIterdir d) st) (fun _ _ => eq_refl))
    as (st' & -> & Ha & Hb & Hsz & _ & Hl).
  cbn beta in *. sproj. unfold add_call in Hb, Hsz, Hl. cbn [fs logged] in Hb, Hsz, Hl.
  split; [reflexivity|]. split; [|split; [intros p; apply prunable_spec|]].
  - intros p. destruct (prunable (fs st) d cutoff p) eqn:Hp.
    + pose proof Hp as (name & c & t & -> & Hnode & _)%prunable_spec.
      apply Ha; [|assumption]. apply elem_of_listdir. eauto.
    + apply Hb. intros n _ Hn ->. congruence.
  - eexists. split; [apply last_snoc | exact Hsz].
Qed.

Lemma dump_dir_state_times : mtimes_ok (fs dump_dir_state) [lit "dumps"].
Proof. apply mtimes_ok_all. apply (bool_decide_unpack _). vm_compute. exact I. Defined.

Lemma prune_old_dumps_spec_witness :
  is_dir (fs dump_dir_state) [lit "dumps"] = true /\
  retention_ok (now (web_env [] None)) 30 = true /\
  mtimes_ok (fs dump_dir_state) [lit "dumps"] /\
  fs (prune_old_dumps (web_env [] None) [lit "dumps"] 30 dump_dir_state).2
    !! [lit "dumps"; old_dump] = None /\
  fs (prune_old_dumps (web_env [] None) [lit "dumps"] 30 dump_dir_state).2
    !! [lit "dumps"; recent_dump] = Some (File [2%N] (days_ago 5)).
Proof.
  split; [reflexivity|]. split; [reflexivity|]. split; [exact dump_dir_state_times|].
  destruct (prune_old_dumps_spec (web_env [] None) dump_dir_state [lit "dumps"] 30
              eq_refl eq_refl dump_dir_state_times)
    as (_ & H & _).
  split; rewrite H; reflexivity.
Defined.

(** C2 as stated, for every retention period and every directory state,
    fails.  With [--retention 1000000] the cutoff would lie before the
    year 1: line 94 raises OverflowError, the directory is not listed and
    no count is logged.  With [--retention -3000000] the cutoff would lie
    after the year 9999: the same error, and the dump written 5 days ago,
    older than that cutoff, stays.  And with a dump whose modification
    time lies in the year 10000 the loop raises at that dump, and again
    no count is logged. *)
Lemma prune_old_dumps_out_of_range :
  let E := web_env [] None in
  let long := prune_old_dumps E [lit "dumps"] 1000000 dump_dir_state in
  let ahead := prune_old_dumps E [lit "dumps"] (-3000000) dump_dir_state in
  let odd := prune_old_dumps E [lit "dumps"] 30 far_future_state in
  (is_dir (fs dump_dir_state) [lit "dumps"] = true /\
   long.1 = Raise OverflowError /\ calls long.2 = [] /\ logged long.2 = []) /\
  (ahead.1 = Raise OverflowError /\
   days_ago 5 < now E - (-3000000) * microseconds_per_day /\
   fs ahead.2 !! [lit "dumps"; recent_dump] = Some (File [2%N] (days_ago 5)) /\
   logged ahead.2 = []) /\
  (is_dir (fs far_future_state) [lit "dumps"] = true /\
   odd.1 = Raise (TimestampOutOfRange year_10000) /\ logged odd.2 = []).
Proof. vm_compute. repeat split; reflexivity. Qed.

(** The scenario of the specification, evaluated: with a retention of 30
    days only the dump written 40 days ago goes; the one written 5 days
    ago, the unfinished transfer and the foreign file stay, and the count
    logged is 1. *)
Example prune_old_dumps_scenario :
  let out := prune_old_dumps (web_env [] None) [lit "dumps"] 30 dump_dir_state in
  (out.1,
   fs out.2 !! [lit "dumps"; old_dump],
   fs out.2 !! [lit "dumps"; recent_dump],
   fs out.2 !! [lit "dumps"; old_dump ++ lit ".!qB"],
   fs out.2 !! [lit "dumps"; lit "notes.txt"],
   logged out.2) =
  (Ok tt, None, Some (File [2%N] (days_ago 5)), Some (File [3%N] (days_ago 40)),
   Some (File [4%N] (days_ago 40)),
   [(INFO, MsgRemoving old_dump); (INFO, MsgPruned 1)]).
Proof. vm_compute. reflexivity. Qed.

(** ** The calls of each stage *)

Lemma stage_same {A} k (c : M A) :
  (forall st, calls (c st).2 = calls st) -> stage_calls k c.
Proof. intros H st. exists []. rewrite app_nil_r. auto. Qed.

Lemma stage_ret {A} k (a : A) : stage_calls k (ret a).
Proof. now apply stage_same. Qed.

Lemma stage_raise {A} k e : stage_calls k (@raise A e).
Proof. now apply stage_same. Qed.

Lemma stage_log k m : stage_calls k (logging_info m).
Proof. now apply stage_same. Qed.

Lemma stage_call k c : stage_of c = k -> stage_calls k (call c).
Proof. intros H st. exists [c]. cbn. auto. Qed.

Lemma stage_bind {A B} k (c : M A) (f : A -> M B) :
  stage_calls k c -> (forall a, stage_calls k (f a)) -> stage_calls k (bind c f).
Proof.
  intros Hc Hf st. unfold bind. destruct (Hc st) as (n1 & H1 & F1).
  destruct (c st) as [[a|e] s1]; cbn [snd] in *.
  - destruct (Hf a s1) as (n2 & H2 & F2). exists (n1 ++ n2).
    rewrite H2, H1, app_assoc. split; [reflexivity | now apply Forall_app].
  - now exists n1.
Qed.

Ltac stage_step :=
  first
    [ apply stage_ret | apply stage_raise | apply stage_log
    | apply stage_call; reflexivity
    | apply stage_bind; [|intros ?]
    | apply stage_same; intros ?;
      repeat match goal with
             | |- context [match ?x with _ => _ end] => destruct x
             end; reflexivity ].

Lemma os_mkdir_calls p st : calls (os_mkdir p st).2 = calls st.
Proof.
  unfold os_mkdir. destruct (node_at (fs st) p); [reflexivity|].
  now destruct (node_at (fs st) (parent p)) as [[|]|].
Qed.

Lemma mkdir_oserror_calls ok p e st : calls (mkdir_oserror ok p e st).2 = calls st.
Proof. unfold mkdir_oserror. now destruct (ok && is_dir (fs st) p). Qed.

Lemma mkdir_rev_calls rp : forall pa ok st, calls (mkdir_rev pa ok rp st).2 = calls st.
Proof.
  induction rp as [|x rparent IH]; intros pa ok st; cbn [mkdir_rev].
  - pose proof (os_mkdir_calls (rev []) st) as H1.
    destruct (os_mkdir (rev []) st) as [[u|e] st1]; cbn [snd] in *; [assumption|].
    destruct e; try (now rewrite mkdir_oserror_calls). assumption.
  - pose proof (os_mkdir_calls (rev (x :: rparent)) st) as H1.
    destruct (os_mkdir (rev (x :: rparent)) st) as [[u|e] st1]; cbn [snd] in *; [assumption|].
    destruct e; try (now rewrite mkdir_oserror_calls).
    destruct pa; cbn [negb]; [|assumption].
    pose proof (IH true true st1) as H2.
    destruct (mkdir_rev true true rparent st1) as [[u|e] st2]; cbn [snd] in *; [|congruence].
    pose proof (os_mkdir_calls (rev (x :: rparent)) st2) as H3.
    destruct (os_mkdir (rev (x :: rparent)) st2) as [[u'|e] st3]; cbn [snd] in *; [congruence|].
    destruct e; try (rewrite mkdir_oserror_calls); cbn [snd]; congruence.
Qed.

Lemma stage_latest_torrent_url E : stage_calls 1 (latest_torrent_url E).
Proof.
  unfold latest_torrent_url, requests_get. repeat stage_step.
Qed.

Lemma stage_write_chunks E fn chunks : stage_calls 2 (write_chunks E fn chunks).
Proof.
  induction chunks as [|ch chunks IH]; cbn [write_chunks]; [stage_step|].
  unfold file_write. repeat stage_step. exact IH.
Qed.

Lemma stage_download_torrent E url : stage_calls 2 (download_torrent E url).
Proof.
  unfold download_torrent, requests_get, open_wb, raise_for_status. repeat stage_step.
  apply stage_write_chunks.
Qed.

Lemma stage_push_to_qb E tp host port user pw sd cat :
  stage_calls 3 (push_to_qb E tp host port user pw sd cat).
Proof.
  unfold push_to_qb, auth_log_in, app_version, app_web_api_version, path_is_dir,
    path_mkdir, open_rb, torrents_add.
  repeat stage_step.
  destruct (negb _); repeat stage_step.
  apply stage_same. intros st. apply mkdir_rev_calls.
Qed.

Lemma stage_prune_loop d c names : forall removed, stage_calls 4 (prune_loop d c names removed).
Proof.
  induction names as [|n names IH]; intros removed; cbn [prune_loop]; [stage_step|].
  unfold path_is_file, stat_mtime, path_unlink, datetime_fromtimestamp. repeat stage_step.
  destruct (negb _); [apply IH|].
  destruct (negb _); [apply IH|].
  destruct (endswith _ _); [apply IH|].
  repeat stage_step.
  destruct (_ <? _); [|apply IH].
  repeat stage_step. apply IH.
Qed.

Lemma stage_prune_old_dumps E d keep : stage_calls 4 (prune_old_dumps E d keep).
Proof.
  unfold prune_old_dumps, path_iterdir, timedelta_days, datetime_sub. repeat stage_step.
  apply stage_prune_loop.
Qed.

(** ** main *)

Lemma stages_extend k k' (l1 l2 : list Call) :
  (k <= k')%nat ->
  StronglySorted le (stage_of <$> l1) /\ Forall (fun c => (stage_of c <= k)%nat) l1 ->
  Forall (fun c => stage_of c = k') l2 ->
  StronglySorted le (stage_of <$> (l1 ++ l2)) /\
  Forall (fun c => (stage_of c <= k')%nat) (l1 ++ l2).
Proof.
  intros Hk [Hs Hb] H2. split.
  - rewrite fmap_app. apply StronglySorted_app_2.
    + intros x1 x2 (c1 & -> & Hc1)%list_elem_of_fmap (c2 & -> & Hc2)%list_elem_of_fmap.
      rewrite Forall_forall in Hb, H2. specialize (Hb _ Hc1). specialize (H2 _ Hc2). lia.
    + assumption.
    + clear -H2. induction H2 as [|c l Hc Hl IH]; cbn; constructor; [assumption|].
      apply Forall_forall. intros y (c' & -> & Hc')%list_elem_of_fmap.
      rewrite Forall_forall in Hl. specialize (Hl _ Hc'). lia.
  - apply Forall_app. split.
    + eapply Forall_impl; [exact Hb|]. cbn. intros. lia.
    + eapply Forall_impl; [exact H2|]. cbn. intros. lia.
Qed.

Lemma error_emitted exc s :
  (ERROR, MsgException exc) ∈ emitted (add_log ERROR (MsgException exc) s).
Proof.
  unfold emitted. apply list_elem_of_filter. split.
  - cbn. destruct (loglevel s); cbn; lia.
  - cbn. apply elem_of_app. right. now left.
Qed.

(** C7.  [main] runs resolver, fetcher, submitter and pruner in this
    order: the calls it makes are sorted by stage.  It returns 0 exactly
    when the four stages succeed one after the other.  When a stage
    raises, [main] returns 1 and the final world is the one that stage
    left, plus one ERROR record carrying the exception, which passes the
    threshold in quiet mode too: no later stage has made any call. *)
Theorem main_runs_stages_in_order E args st0 :
  let st := set_loglevel (if arg_quiet args then WARNING else INFO) st0 in
  let submit tp :=
    push_to_qb E tp (arg_host args) (arg_port args) (arg_user args)
      (arg_password args) (arg_save_dir args) (arg_category args) in
  let prune := prune_old_dumps E (arg_save_dir args) (arg_retention args) in
  let out := main E args st0 in
  (exists new, calls out.2 = calls st0 ++ new /\ StronglySorted le (stage_of <$> new)) /\
  ((out.1 = 0 /\
    exists url s1 tp s2 s3,
      latest_torrent_url E st = (Ok url, s1) /\
      download_torrent E url s1 = (Ok tp, s2) /\
      submit tp s2 = (Ok tt, s3) /\
      prune s3 = (Ok tt, out.2)) \/
   (out.1 = 1 /\
    exists exc s k,
      out.2 = add_log ERROR (MsgException exc) s /\
      (ERROR, MsgException exc) ∈ emitted out.2 /\
      (exists new, calls s = calls st0 ++ new /\
                   Forall (fun c => (stage_of c <= k)%nat) new) /\
      ((k = 1%nat /\ latest_torrent_url E st = (Raise exc, s)) \/
       (k = 2%nat /\ exists url s1,
          latest_torrent_url E st = (Ok url, s1) /\
          download_torrent E url s1 = (Raise exc, s)) \/
       (k = 3%nat /\ exists url s1 tp s2,
          latest_torrent_url E st = (Ok url, s1) /\
          download_torrent E url s1 = (Ok tp, s2) /\
          submit tp s2 = (Raise exc, s)) \/
       (k = 4%nat /\ exists url s1 tp s2 s3,
          latest_torrent_url E st = (Ok url, s1) /\
          download_torrent E url s1 = (Ok tp, s2) /\
          submit tp s2 = (Ok tt, s3) /\
          prune s3 = (Raise exc, s))))).
Proof.
  intros st submit prune out. subst out submit prune. cbv beta.
  unfold main, stages. fold st. unfold bind.
  assert (H0 : StronglySorted le (stage_of <$> @nil Call) /\
               Forall (fun c => (stage_of c <= 1)%nat) (@nil Call)).
  { split; constructor. }
  destruct (stage_latest_torrent_url E st) as (n1 & C1 & F1).
  change (calls st) with (calls st0) in C1.
  pose proof (stages_extend 1 1 [] n1 (le_n _) H0 F1) as [S1 B1]. cbn [app] in S1, B1.
  destruct (latest_torrent_url E st) as [[url|e] s1] eqn:D1; cbn [fst snd] in *.
  2: { split; [exists n1; split; [exact C1 | exact S1]|]. right. split; [reflexivity|].
       exists e, s1, 1%nat. split; [reflexivity|]. split; [apply error_emitted|].
       split; [eauto|]. left. split; reflexivity. }
  destruct (stage_download_torrent E url s1) as (n2 & C2 & F2). rewrite C1 in C2.
  pose proof (stages_extend 1 2 n1 n2 ltac:(lia) (conj S1 B1) F2) as [S2 B2].
  rewrite <- app_assoc in C2.
  destruct (download_torrent E url s1) as [[tp|e] s2] eqn:D2; cbn [fst snd] in *.
  2: { split; [exists (n1 ++ n2); split; [exact C2 | exact S2]|]. right. split; [reflexivity|].
       exists e, s2, 2%nat. split; [reflexivity|]. split; [apply error_emitted|].
       split; [eauto|]. right. left. split; [reflexivity|].
       exists url, s1. split; first [reflexivity | assumption]. }
  destruct (stage_push_to_qb E tp (arg_host args) (arg_port args) (arg_user args)
              (arg_password args) (arg_save_dir args) (arg_category args) s2)
    as (n3 & C3 & F3).
  rewrite C2 in C3.
  pose proof (stages_extend 2 3 (n1 ++ n2) n3 ltac:(lia) (conj S2 B2) F3) as [S3 B3].
  rewrite <- app_assoc in C3.
  destruct (push_to_qb E tp _ _ _ _ _ _ s2) as [[[]|e] s3] eqn:D3; cbn [fst snd] in *.
  2: { split; [exists ((n1 ++ n2) ++ n3); split; [exact C3 | exact S3]|]. right.
       split; [reflexivity|].
       exists e, s3, 3%nat. split; [reflexivity|]. split; [apply error_emitted|].
       split; [eauto|]. right. right. left. split; [reflexivity|].
       exists url, s1, tp, s2. repeat split; first [reflexivity | assumption]. }
  destruct (stage_prune_old_dumps E (arg_save_dir args) (arg_retention args) s3)
    as (n4 & C4 & F4).
  rewrite C3 in C4.
  pose proof (stages_extend 3 4 ((n1 ++ n2) ++ n3) n4 ltac:(lia) (conj S3 B3) F4) as [S4 B4].
  rewrite <- app_assoc in C4.
  destruct (prune_old_dumps E _ _ s3) as [[[]|e] s4] eqn:D4; cbn [fst snd] in *.
  - split; [exists (((n1 ++ n2) ++ n3) ++ n4); split; [exact C4 | exact S4]|].
    left. split; [reflexivity|]. exists url, s1, tp, s2, s3. repeat split; first [reflexivity | assumption].
  - split; [exists (((n1 ++ n2) ++ n3) ++ n4); split; [exact C4 | exact S4]|]. right.
    split; [reflexivity|].
    exists e, s4, 4%nat. split; [reflexivity|]. split; [apply error_emitted|].
    split; [eauto|]. right. right. right. split; [reflexivity|].
    exists url, s1, tp, s2, s3. repeat split; first [reflexivity | assumption].
Qed.

(** A full run, evaluated: the index links to a protocol-relative
    torrent, the download succeeds, the save directory is created, the job
    is queued, nothing is old enough to prune, and the exit code is 0. *)
Example main_succeeds :
  let E := web_env [anchor (lit "//dl.example/enwiki-20240201-pages-articles-multistream.xml.bz2.torrent")]
             (Some (mkResponse 200 [100%N; 56%N] [])) in
  let args := mkArgs (lit "localhost") 8080 (lit "admin") (lit "adminadmin")
                save_dir_example (lit "wikipedia") 30 false in
  let out := main E args fresh_state in
  (out.1, stage_of <$> calls out.2, length (jobs out.2), last (logged out.2)) =
  (0, [1; 2; 2; 2; 3; 3; 3; 3; 3; 3; 3; 4]%nat, 1%nat, Some (INFO, MsgPruned 0)).
Proof. vm_compute. reflexivity. Qed.

(** The same run against a WebUI that rejects the login: the submitter
    raises, the pruner never runs, and the exit code is 1, also in quiet
    mode, where the ERROR record is the only one emitted. *)
Example main_fails_on_login :
  let E := mkEnv (http (web_env [anchor (lit "/w/enwiki-20240201-pages-articles-multistream.xml.bz2.torrent")]
                          (Some (mkResponse 200 [100%N; 56%N] []))))
             [lit "tmp"] 0 (fun _ _ _ _ => AuthRejected) [] [] (fun _ => AddOk) in
  let args := mkArgs (lit "localhost") 8080 (lit "admin") (lit "wrong")
                save_dir_example (lit "wikipedia") 30 true in
  let out := main E args fresh_state in
  (out.1, stage_of <$> calls out.2, jobs out.2, emitted out.2) =
  (1, [1; 2; 2; 2; 3]%nat, [], [(ERROR, MsgException LoginFailed)]).
Proof. vm_compute. reflexivity. Qed.

(** The run of [main_succeeds] with [--retention 1000000]: the job is
    queued, then the pruner raises at its first line, and the exit code
    is 1. *)
Example main_fails_on_retention :
  let args := mkArgs (lit "localhost") 8080 (lit "admin") (lit "adminadmin")
                save_dir_example (lit "wikipedia") 1000000 false in
  let out := main working_env args fresh_state in
  (out.1, stage_of <$> calls out.2, length (jobs out.2), last (logged out.2)) =
  (1, [1; 2; 2; 2; 3; 3; 3; 3; 3; 3; 3]%nat, 1%nat,
   Some (ERROR, MsgException OverflowError)).
Proof. vm_compute. reflexivity. Qed.

(** * Further properties *)

(** ** The two patterns *)

Lemma accepts_digits n p t :
  accepts true (Re.repeat_item n Re.CDigit ++ p) t <->
  exists ds rest, t = ds ++ rest /\ length ds = n /\
                  Forall (fun x => Re.unicode_isdecimal x = true) ds /\
                  accepts true p rest.
Proof.
  revert t. induction n as [|n IH]; intros t; cbn.
  - split.
    + intros H. exists [], t. repeat split; [constructor | assumption].
    + intros (ds & rest & -> & Hl & _ & H). now destruct ds.
  - split.
    + inversion 1 as [| ? ? x s Hx Hs | |]; subst.
      apply IH in Hs as (ds & rest & -> & Hl & Hds & Hr).
      exists (x :: ds), rest. cbn. repeat split; auto.
    + intros (ds & rest & -> & Hl & Hds & Hr).
      destruct ds as [|x ds]; [discriminate|]. injection Hl as Hl.
      inversion Hds; subst. cbn. constructor; [assumption|]. apply IH. eauto 10.
Qed.

(** X1.  The names the dump pattern matches: [enwiki-], eight decimal
    digits, [-pages-articles-multistream], anything without a line feed,
    and [.bz2] at the very end or before one final line feed; letters up
    to case.  The match is anchored at the start of the name. *)
Theorem dump_match_spec name :
  Re.re_match DUMP_FILE_RE name = true <-> dump_name name.
Proof.
  unfold Re.re_match, DUMP_FILE_RE, dump_name. cbn [Re.items Re.ignorecase].
  rewrite match_items_accepts. split.
  - intros H.
    apply accepts_lits in H as (a & r1 & -> & Ha & H).
    apply accepts_digits in H as (ds & r2 & -> & Hl & Hds & H).
    apply accepts_lits in H as (b & r3 & -> & Hb & H).
    change ([Re.Many Re.CAny] ++ ?q) with (Re.Many Re.CAny :: q) in H.
    apply accepts_many_any in H as (m & r4 & -> & Hm & H).
    apply accepts_lits in H as (c & e & -> & Hc & H).
    apply accepts_eol_only in H.
    exists a, ds, b, m, c, e. auto 10.
  - intros (a & ds & b & m & c & e & -> & Ha & Hl & Hds & Hb & Hm & Hc & He).
    apply accepts_lits. exists a, (ds ++ b ++ m ++ c ++ e). repeat split; [assumption|].
    apply accepts_digits. exists ds, (b ++ m ++ c ++ e). repeat split; [assumption..|].
    apply accepts_lits. exists b, (m ++ c ++ e). repeat split; [assumption|].
    change ([Re.Many Re.CAny] ++ ?q) with (Re.Many Re.CAny :: q).
    apply accepts_many_any. exists m, (c ++ e). repeat split; [assumption|].
    apply accepts_lits. exists c, e. repeat split; [assumption|].
    now apply accepts_eol_only.
Qed.

Lemma torrent_tail s :
  Re.re_search TORRENT_NAME_RE s = true ->
  exists pre x e, s = pre ++ x :: e /\ Re.lit_match true 0x74%N x = true /\
                  (e = [] \/ e = [LF]).
Proof.
  unfold Re.re_search. intros (pre & suf & -> & H)%search_items_spec.
  change (Re.items TORRENT_NAME_RE) with
    (removelast (removelast (Re.items TORRENT_NAME_RE)) ++
     [Re.One (Re.CLit 0x74%N); Re.Eol]) in H.
  apply accepts_last in H as (pre' & x & e & -> & Hx & He).
  exists (pre ++ pre'), x, e. rewrite <- app_assoc. auto.
Qed.

Lemma dump_tail s :
  Re.re_match DUMP_FILE_RE s = true ->
  exists pre e, s = pre ++ 0x32%N :: e /\ (e = [] \/ e = [LF]).
Proof.
  unfold Re.re_match. intros H%match_items_accepts.
  change (Re.items DUMP_FILE_RE) with
    (removelast (removelast (Re.items DUMP_FILE_RE)) ++
     [Re.One (Re.CLit 0x32%N); Re.Eol]) in H.
  apply accepts_last in H as (pre & x & e & -> & Hx & He).
  apply N.eqb_eq in Hx as ->. eauto.
Qed.

Lemma tails_clash (pre pre' e e' : pystr) x :
  pre ++ x :: e = pre' ++ 0x32%N :: e' ->
  Re.lit_match true 0x74%N x = true ->
  (e = [] \/ e = [LF]) -> (e' = [] \/ e' = [LF]) -> False.
Proof.
  intros Heq Hx He He'.
  apply (f_equal (@rev N)) in Heq. rewrite !rev_app_distr in Heq. cbn in Heq.
  destruct He as [-> | ->], He' as [-> | ->]; cbn in Heq;
    rewrite <- ?app_assoc in Heq; cbn in Heq.
  - injection Heq as -> _. vm_compute in Hx. discriminate.
  - injection Heq as -> _. vm_compute in Hx. discriminate.
  - injection Heq as H _. vm_compute in H. discriminate.
  - injection Heq as -> _. vm_compute in Hx. discriminate.
Qed.

Lemma basename_noslash s : existsb (N.eqb SLASH) s = false -> basename s = s.
Proof.
  destruct s as [|x s]; [reflexivity|]. cbn [existsb basename].
  intros [Hx Hs]%orb_false_elim. rewrite Hs.
  rewrite N.eqb_sym in Hx. now rewrite Hx.
Qed.

Lemma basename_app_tail pre t :
  existsb (N.eqb SLASH) t = false -> basename (pre ++ t) = basename pre ++ t.
Proof.
  intros Ht. induction pre as [|x pre IH]; [now apply basename_noslash|].
  cbn [app basename]. rewrite existsb_app, Ht, orb_false_r.
  destruct (existsb (N.eqb SLASH) pre); [exact IH|].
  destruct (x =? SLASH)%N; reflexivity.
Qed.

Lemma torrent_tail_noslash x e :
  Re.lit_match true 0x74%N x = true -> (e = [] \/ e = [LF]) ->
  existsb (N.eqb SLASH) (x :: e) = false.
Proof.
  intros Hx He. cbn [existsb].
  assert (Hs : (SLASH =? x)%N = false).
  { apply N.eqb_neq. intros <-. vm_compute in Hx. discriminate. }
  rewrite Hs. now destruct He as [-> | ->].
Qed.

Lemma torrent_basename_tail u :
  Re.re_search TORRENT_NAME_RE u = true ->
  exists pre x e, basename u = pre ++ x :: e /\ Re.lit_match true 0x74%N x = true /\
                  (e = [] \/ e = [LF]).
Proof.
  intros (pre & x & e & -> & Hx & He)%torrent_tail.
  rewrite basename_app_tail by now apply torrent_tail_noslash.
  eauto 10.
Qed.

(** X2.  Nothing named like a torrent link can be pruned: a string the
    torrent pattern accepts is never matched by the dump pattern, and
    neither is its last path segment. *)
Theorem torrent_name_never_dump u :
  Re.re_search TORRENT_NAME_RE u = true ->
  Re.re_match DUMP_FILE_RE u = false /\
  Re.re_match DUMP_FILE_RE (basename u) = false.
Proof.
  intros Hu. split; apply not_true_is_false; intros Hd.
  - apply torrent_tail in Hu as (pre & x & e & -> & Hx & He).
    apply dump_tail in Hd as (pre' & e' & Heq & He').
    exact (tails_clash _ _ _ _ _ Heq Hx He He').
  - apply torrent_basename_tail in Hu as (pre & x & e & Hb & Hx & He).
    apply dump_tail in Hd as (pre' & e' & Heq & He').
    rewrite Hb in Heq. exact (tails_clash _ _ _ _ _ Heq Hx He He').
Qed.

Lemma torrent_name_never_dump_witness :
  Re.re_search TORRENT_NAME_RE
    (lit "https://dl.example/enwiki-20240201-pages-articles-multistream.xml.bz2.torrent") = true /\
  Re.re_match DUMP_FILE_RE
    (basename (lit "https://dl.example/enwiki-20240201-pages-articles-multistream.xml.bz2.torrent")) = false.
Proof.
  split; [reflexivity|].
  apply (torrent_name_never_dump
           (lit "https://dl.example/enwiki-20240201-pages-articles-multistream.xml.bz2.torrent")).
  reflexivity.
Defined.

(** ** The link resolver, on any page *)

Lemma scan_find_all doc :
  scan_links (find_all_a_href doc) =
  absolutize <$> head (filter (fun h => Re.re_search TORRENT_NAME_RE h = true)
                         (anchor_hrefs doc)).
Proof.
  unfold find_all_a_href, anchor_hrefs.
  induction doc as [|t doc IH]; [reflexivity|].
  destruct (decide (tag_name t = lit "a" /\ is_Some (tag_attrs t !! lit "href")))
    as [[Hn [h Hh]] | Hno].
  - rewrite filter_cons_True by eauto. cbn [scan_links omap list_omap].
    rewrite decide_True by assumption. rewrite Hh. cbn [default from_option id].
    destruct (Re.re_search TORRENT_NAME_RE h) eqn:Hm.
    + rewrite filter_cons_True by assumption. reflexivity.
    + rewrite filter_cons_False by congruence. exact IH.
  - rewrite filter_cons_False by assumption. cbn [omap list_omap].
    destruct (decide (tag_name t = lit "a")) as [Hn|Hn]; [|exact IH].
    destruct (tag_attrs t !! lit "href") as [h|] eqn:Hh; [|exact IH].
    exfalso. apply Hno. eauto.
Qed.

(** X3.  Whatever the status of the index response, the resolver looks
    only at the anchors that carry an href, in document order.  It takes
    the first href the pattern accepts and returns it after its prefix
    rule, [absolutize]: [https:] is put before [//],
    [https://meta.wikimedia.org] before [/], and any other href is
    returned as it is.  It raises the RuntimeError when no href is
    accepted. *)
Theorem latest_torrent_url_first_anchor E st r :
  http E META_URL = Some r ->
  (latest_torrent_url E st).1 =
  match head (filter (fun h => Re.re_search TORRENT_NAME_RE h = true)
                (anchor_hrefs (document r))) with
  | Some h => Ok (absolutize h)
  | None => Raise (RuntimeError NO_LINK_MESSAGE)
  end.
Proof.
  intros H. rewrite (latest_torrent_url_run _ _ _ H). cbn [fst].
  rewrite scan_find_all. now destruct (head _).
Qed.

Lemma latest_torrent_url_first_anchor_witness :
  http mixed_env META_URL = Some (mkResponse 404 [] mixed_page) /\
  (latest_torrent_url mixed_env empty_state).1 =
  Ok (lit "https://meta.wikimedia.org/t/enwiki-20240201-pages-articles-multistream.xml.bz2.torrent").
Proof.
  split; [reflexivity|].
  rewrite (latest_torrent_url_first_anchor mixed_env empty_state
             (mkResponse 404 [] mixed_page) eq_refl).
  reflexivity.
Defined.

Lemma absolutize_keeps_match h :
  Re.re_search TORRENT_NAME_RE h = true ->
  Re.re_search TORRENT_NAME_RE (absolutize h) = true.
Proof.
  intros H. unfold absolutize.
  destruct (startswith h (lit "//")); [now apply search_items_app|].
  destruct (startswith h (lit "/")); [now apply search_items_app | assumption].
Qed.

Lemma scan_links_match tags u :
  scan_links tags = Some u -> Re.re_search TORRENT_NAME_RE u = true.
Proof.
  induction tags as [|a tags IH]; [discriminate|]. cbn [scan_links]. intros H.
  destruct (Re.re_search TORRENT_NAME_RE (default [] (tag_attrs a !! lit "href"))) eqn:Hm;
    [|now apply IH].
  injection H as <-. now apply absolutize_keeps_match.
Qed.

Lemma latest_torrent_url_ok E st u :
  (latest_torrent_url E st).1 = Ok u -> Re.re_search TORRENT_NAME_RE u = true.
Proof.
  unfold latest_torrent_url, requests_get. mrun.
  destruct (http E META_URL) as [r|]; mrun; [|discriminate].
  destruct (scan_links _) as [u'|] eqn:Hs; mrun; [|discriminate].
  intros [= <-]. exact (scan_links_match _ _ Hs).
Qed.

Lemma torrent_tail_not_dots (pre : pystr) x e :
  Re.lit_match true 0x74%N x = true -> (e = [] \/ e = [LF]) ->
  pre ++ x :: e <> [] /\ pre ++ x :: e <> lit "." /\ pre ++ x :: e <> lit "..".
Proof.
  intros Hx He. split; [now destruct pre|].
  split; intros Heq; apply (f_equal (@rev N)) in Heq;
    rewrite rev_app_distr in Heq; cbn in Heq;
    destruct He as [-> | ->]; cbn in Heq;
    rewrite <- ?app_assoc in Heq; cbn in Heq.
  - injection Heq as -> _. vm_compute in Hx. discriminate.
  - injection Heq as H _. vm_compute in H. discriminate.
  - injection Heq as -> _. vm_compute in Hx. discriminate.
  - injection Heq as H _. vm_compute in H. discriminate.
Qed.

(** X4.  A URL the resolver returns is still accepted by the torrent
    pattern, so its last path segment is a proper file name ending in
    [.torrent]: the fetcher's destination for it is a direct child of the
    temporary directory. *)
Theorem latest_torrent_url_result E st u :
  (latest_torrent_url E st).1 = Ok u ->
  torrent_link u /\
  basename u <> [] /\
  forall d, joinpath d (basename u) = d ++ [basename u].
Proof.
  intros Hu%latest_torrent_url_ok. split; [now apply torrent_search_spec|].
  apply torrent_basename_tail in Hu as (pre & x & e & -> & Hx & He).
  destruct (torrent_tail_not_dots pre x e Hx He) as (H1 & H2 & H3).
  split; [assumption|]. intros d. now apply joinpath_proper.
Qed.

Lemma latest_torrent_url_result_witness :
  (latest_torrent_url mixed_env empty_state).1 =
    Ok (lit "https://meta.wikimedia.org/t/enwiki-20240201-pages-articles-multistream.xml.bz2.torrent") /\
  basename (lit "https://meta.wikimedia.org/t/enwiki-20240201-pages-articles-multistream.xml.bz2.torrent")
    <> [].
Proof.
  split; [reflexivity|].
  apply (latest_torrent_url_result mixed_env empty_state _ eq_refl).
Defined.

(** X5.  Making a href absolute twice changes nothing more: the prefixes
    the resolver adds begin with a scheme, not with a slash. *)
Theorem absolutize_idempotent href :
  absolutize (absolutize href) = absolutize href.
Proof.
  destruct (absolutize_cases href) as (C1 & C2 & C3).
  destruct (startswith href (lit "//")) eqn:H2.
  { rewrite (C1 eq_refl). reflexivity. }
  destruct (startswith href (lit "/")) eqn:H1.
  { rewrite (C2 eq_refl eq_refl). reflexivity. }
  now rewrite !(C3 eq_refl).
Qed.

(** ** The fetcher: failures, frame, location *)

Lemma download_torrent_no_response E st url :
  http E url = None ->
  download_torrent E url st =
  (Raise (RequestException url),
   add_call (RequestsGet url true 60)
     (add_log INFO (MsgDownloading url (joinpath (gettempdir E) (basename url))) st)).
Proof.
  intros H. unfold download_torrent, requests_get. mrun. rewrite H. reflexivity.
Qed.

Lemma download_torrent_open_fails E st url r :
  let fn := joinpath (gettempdir E) (basename url) in
  http E url = Some r ->
  can_open_wb (fs st) fn = false ->
  exists e,
    download_torrent E url st =
      (Raise e, add_call (OpenWrite fn) (add_call (RequestsGet url true 60)
                  (add_log INFO (MsgDownloading url fn) st))) /\
    (e = IsADirectoryError fn \/ e = NotADirectoryError fn \/ e = FileNotFoundError fn).
Proof.
  intros fn Hr Hopen. unfold download_torrent, requests_get, open_wb. fold fn. mrun.
  rewrite Hr. mrun. unfold can_open_wb, is_dir in Hopen.
  destruct (node_at (fs st) fn) as [[c t|]|]; [discriminate | eauto |].
  destruct (node_at (fs st) (parent fn)) as [[c t|]|]; [eauto | discriminate |].
  unfold missing_error. destruct (under_file (fs st) fn); eauto 10.
Qed.

(** X6.  Whatever happens, the fetcher changes no file but its
    destination, and never the remote job list. *)
Theorem download_torrent_frame E st url :
  let fn := joinpath (gettempdir E) (basename url) in
  let out := download_torrent E url st in
  jobs out.2 = jobs st /\
  forall p, p <> fn -> fs out.2 !! p = fs st !! p.
Proof.
  intros fn out. subst out.
  destruct (http E url) as [r|] eqn:Hr.
  - destruct (can_open_wb (fs st) fn) eqn:Hopen.
    + rewrite (download_torrent_run E st url r Hr Hopen). fold fn.
      destruct (http_error_status _); cbn [snd fs jobs];
        (split; [reflexivity|]; intros p Hp; now rewrite lookup_insert_ne).
    + destruct (download_torrent_open_fails E st url r Hr Hopen) as (e & -> & _).
      now split.
  - rewrite (download_torrent_no_response E st url Hr). now split.
Qed.

(** X7.  When no response arrives the destination is not even opened:
    the filesystem is untouched, an earlier download included, and the
    request is the only call. *)
Theorem download_torrent_request_failure E st url :
  http E url = None ->
  let out := download_torrent E url st in
  out.1 = Raise (RequestException url) /\
  fs out.2 = fs st /\
  calls out.2 = calls st ++ [RequestsGet url true 60].
Proof.
  intros H out. subst out. rewrite (download_torrent_no_response E st url H).
  repeat split.
Qed.

Lemma download_torrent_request_failure_witness :
  http (web_env [] None) torrent_url = None /\
  fs (download_torrent (web_env [] None) torrent_url stale_state).2 = fs stale_state.
Proof.
  split; [reflexivity|].
  apply (download_torrent_request_failure (web_env [] None) stale_state torrent_url eq_refl).
Defined.

Lemma existsb_slash_false (s : pystr) :
  existsb (N.eqb SLASH) s = false -> SLASH ∉ s.
Proof.
  induction s as [|x s IH]; cbn [existsb]; [intros _ H; now apply elem_of_nil in H|].
  intros [Hx Hs]%orb_false_elim [Heq|Hin]%elem_of_cons.
  - rewrite <- Heq, N.eqb_refl in Hx. discriminate.
  - now apply IH.
Qed.

Lemma basename_no_slash s : SLASH ∉ basename s.
Proof.
  induction s as [|x s IH]; cbn [basename]; [intros H; now apply elem_of_nil in H|].
  destruct (existsb (N.eqb SLASH) s) eqn:Hs; [exact IH|].
  apply existsb_slash_false in Hs.
  destruct (x =? SLASH)%N eqn:Hx; [assumption|].
  intros [Heq|Hin]%elem_of_cons; [|contradiction].
  rewrite <- Heq, N.eqb_refl in Hx. discriminate.
Qed.

Lemma parent_prefix (p : path) : parent p `prefix_of` p.
Proof.
  destruct p as [|x p _] using rev_ind; [reflexivity|].
  rewrite parent_snoc. now apply prefix_app_r.
Qed.

(** X8.  The URL cannot steer the download out of the temporary
    directory: with that directory in place, a download that succeeds has
    written a direct child of it, named by the URL's last path segment,
    which is not empty and holds no slash. *)
Theorem download_torrent_stays_in_tmp E st url tp :
  fs_wf (fs st) ->
  is_dir (fs st) (gettempdir E) = true ->
  (download_torrent E url st).1 = Ok tp ->
  tp = gettempdir E ++ [basename url] /\
  basename url <> [] /\
  SLASH ∉ basename url.
Proof.
  intros Hwf Htmp Hok.
  destruct (http E url) as [r|] eqn:Hr.
  2: { rewrite (download_torrent_no_response E st url Hr) in Hok. discriminate. }
  set (fn := joinpath (gettempdir E) (basename url)).
  destruct (can_open_wb (fs st) fn) eqn:Hopen.
  2: { destruct (download_torrent_open_fails E st url r Hr Hopen) as (e & He & _).
       rewrite He in Hok. discriminate. }
  rewrite (download_torrent_run E st url r Hr Hopen) in Hok. fold fn in Hok.
  assert (Hdir : forall q, is_dir (fs st) q = true -> can_open_wb (fs st) q = false).
  { intros q Hq. unfold can_open_wb. unfold is_dir in Hq.
    now destruct (node_at (fs st) q) as [[|]|]. }
  assert (Hfn : fn = gettempdir E ++ [basename url] /\ basename url <> []).
  { subst fn. unfold joinpath in *.
    destruct (decide (basename url = [] \/ basename url = lit ".")) as [Hd|Hd].
    { rewrite Hdir in Hopen by assumption. discriminate. }
    destruct (decide (basename url = lit "..")) as [Hdd|Hdd].
    { rewrite Hdir in Hopen; [discriminate|].
      apply (wf_ancestors _ _ Hwf Htmp). apply parent_prefix. }
    split; [reflexivity|]. intros H. apply Hd. now left. }
  destruct Hfn as [Hfn Hne].
  split; [|split; [assumption | apply basename_no_slash]].
  destruct (http_error_status _); cbn [fst] in Hok; [discriminate|].
  injection Hok as <-. exact Hfn.
Qed.

Lemma tmp_state_wf : fs_wf (fs tmp_state).
Proof. apply (bool_decide_unpack _). vm_compute. exact I. Defined.

Lemma download_torrent_stays_in_tmp_witness :
  fs_wf (fs tmp_state) /\
  is_dir (fs tmp_state) (gettempdir (web_env [] (Some not_modified))) = true /\
  (download_torrent (web_env [] (Some not_modified)) torrent_url tmp_state).1
    = Ok [lit "tmp"; lit "x.torrent"] /\
  [lit "tmp"; lit "x.torrent"] =
    gettempdir (web_env [] (Some not_modified)) ++ [basename torrent_url].
Proof.
  split; [exact tmp_state_wf|]. split; [reflexivity|]. split; [reflexivity|].
  apply (download_torrent_stays_in_tmp (web_env [] (Some not_modified)) tmp_state
           torrent_url [lit "tmp"; lit "x.torrent"] tmp_state_wf eq_refl eq_refl).
Defined.

Lemma basename_trailing_slash s : basename (s ++ [SLASH]) = [].
Proof.
  induction s as [|x s IH]; [reflexivity|].
  cbn [app basename]. rewrite existsb_app. cbn [existsb].
  rewrite N.eqb_refl, orb_true_r. exact IH.
Qed.

(** X9.  A URL that ends in a slash has an empty last segment, so the
    destination is the temporary directory itself: the open fails with
    IsADirectoryError before the status is looked at, whatever the
    response, and the filesystem is unchanged. *)
Theorem download_torrent_trailing_slash E st s r :
  http E (s ++ [SLASH]) = Some r ->
  is_dir (fs st) (gettempdir E) = true ->
  let out := download_torrent E (s ++ [SLASH]) st in
  out.1 = Raise (IsADirectoryError (gettempdir E)) /\
  fs out.2 = fs st.
Proof.
  intros Hr Htmp out. subst out.
  unfold download_torrent, requests_get, open_wb. rewrite basename_trailing_slash.
  change (joinpath (gettempdir E) []) with (gettempdir E). mrun.
  rewrite Hr. mrun. unfold is_dir in Htmp.
  destruct (node_at (fs st) (gettempdir E)) as [[|]|]; try discriminate.
  now split.
Qed.

Lemma download_torrent_trailing_slash_witness :
  http (web_env [] (Some (mkResponse 200 [1%N] []))) (lit "https://dl.example/" ++ [SLASH])
    = Some (mkResponse 200 [1%N] []) /\
  is_dir (fs tmp_state) (gettempdir (web_env [] (Some (mkResponse 200 [1%N] [])))) = true /\
  (download_torrent (web_env [] (Some (mkResponse 200 [1%N] [])))
     (lit "https://dl.example/" ++ [SLASH]) tmp_state).1 = Raise (IsADirectoryError [lit "tmp"]).
Proof.
  split; [reflexivity|]. split; [reflexivity|].
  apply (download_torrent_trailing_slash (web_env [] (Some (mkResponse 200 [1%N] [])))
           tmp_state (lit "https://dl.example/") (mkResponse 200 [1%N] []) eq_refl eq_refl).
Defined.

(** X10.  Downloading again overwrites: a second download of the same
    response ends as the first did and leaves the same filesystem. *)
Theorem download_torrent_again E st url r :
  http E url = Some r ->
  can_open_wb (fs st) (joinpath (gettempdir E) (basename url)) = true ->
  let once := download_torrent E url st in
  let twice := download_torrent E url once.2 in
  twice.1 = once.1 /\ fs twice.2 = fs once.2.
Proof.
  intros Hr Hopen once twice. subst twice once.
  set (fn := joinpath (gettempdir E) (basename url)) in *.
  assert (Hfn : fn <> []).
  { intros H. rewrite H in Hopen. discriminate. }
  rewrite (download_torrent_run E st url r Hr Hopen). fold fn.
  destruct (http_error_status (status_code r)) eqn:Hs; cbn [snd fst].
  - rewrite (download_torrent_run E _ url r Hr); fold fn.
    + rewrite Hs. cbn [fst snd fs]. now rewrite insert_insert_eq.
    + unfold can_open_wb. cbn [fs]. now rewrite node_at_insert_eq.
  - rewrite (download_torrent_run E _ url r Hr); fold fn.
    + rewrite Hs. cbn [fst snd fs]. now rewrite insert_insert_eq.
    + unfold can_open_wb. cbn [fs]. now rewrite node_at_insert_eq.
Qed.

Lemma download_torrent_again_witness :
  http (web_env [] (Some not_modified)) torrent_url = Some not_modified /\
  can_open_wb (fs tmp_state)
    (joinpath (gettempdir (web_env [] (Some not_modified))) (basename torrent_url)) = true /\
  (download_torrent (web_env [] (Some not_modified)) torrent_url
     (download_torrent (web_env [] (Some not_modified)) torrent_url tmp_state).2).1 =
  (download_torrent (web_env [] (Some not_modified)) torrent_url tmp_state).1.
Proof.
  split; [reflexivity|]. split; [reflexivity|].
  apply (download_torrent_again (web_env [] (Some not_modified)) tmp_state torrent_url
           not_modified eq_refl eq_refl).
Defined.

(** ** The submitter: jobs, filesystem, a blocked save directory *)

Lemma adds_dirs_refl p m : adds_dirs p m m.
Proof. intros q. now left. Qed.

Lemma adds_dirs_trans p p' m1 m2 m3 :
  p `prefix_of` p' -> adds_dirs p m1 m2 -> adds_dirs p' m2 m3 -> adds_dirs p' m1 m3.
Proof.
  intros Hp H12 H23 q.
  destruct (H12 q) as [H1 | (H1 & H2 & Hq)], (H23 q) as [H3 | (H3 & H4 & Hq')].
  - left. congruence.
  - right. rewrite <- H1. auto.
  - right. rewrite H3. split; [assumption|]. split; [assumption|]. now transitivity p.
  - congruence.
Qed.

Lemma adds_dirs_insert (p : path) m :
  m !! p = None -> adds_dirs p m (<[p := Dir]> m).
Proof.
  intros H q. destruct (decide (p = q)) as [<-|Hne].
  - right. rewrite lookup_insert_eq. auto.
  - left. now rewrite lookup_insert_ne.
Qed.

Lemma os_mkdir_frame p st :
  let out := os_mkdir p st in
  jobs out.2 = jobs st /\ adds_dirs p (fs st) (fs out.2) /\
  (out.1 = Ok tt -> is_dir (fs out.2) p = true).
Proof.
  unfold os_mkdir. destruct (node_at (fs st) p) as [n|] eqn:Hn; cbn.
  { split; [reflexivity|]. split; [apply adds_dirs_refl | discriminate]. }
  apply node_at_None in Hn as [Hp Hn].
  destruct (node_at (fs st) (parent p)) as [[c t|]|]; cbn;
    try (split; [reflexivity|]; split; [apply adds_dirs_refl | discriminate]).
  split; [reflexivity|]. split; [now apply adds_dirs_insert|].
  intros _. unfold is_dir. now rewrite node_at_insert_eq.
Qed.

Lemma mkdir_oserror_frame p e st :
  let out := mkdir_oserror true p e st in
  out.2 = st /\ (out.1 = Ok tt -> is_dir (fs st) p = true).
Proof.
  unfold mkdir_oserror. cbn [andb].
  destruct (is_dir (fs st) p); cbn; split; try reflexivity; discriminate.
Qed.

Lemma mkdir_rev_frame rp : forall st,
  let out := mkdir_rev true true rp st in
  jobs out.2 = jobs st /\ adds_dirs (rev rp) (fs st) (fs out.2) /\
  (out.1 = Ok tt -> is_dir (fs out.2) (rev rp) = true).
Proof.
  induction rp as [|x rparent IH]; intros st; cbn [mkdir_rev negb].
  - pose proof (os_mkdir_frame (rev []) st) as (Hj & Ha & Hok).
    destruct (os_mkdir (rev []) st) as [[[]|e] st1]; cbn [fst snd] in *; [auto|].
    assert (Hgen : forall e',
      let out := mkdir_oserror true (rev []) e' st1 in
      jobs out.2 = jobs st /\ adds_dirs (rev []) (fs st) (fs out.2) /\
      (out.1 = Ok tt -> is_dir (fs out.2) (rev []) = true)).
    { intros e'. cbv zeta. destruct (mkdir_oserror_frame (rev []) e' st1) as [-> H]. auto. }
    destruct e; try apply Hgen. cbn. split; [assumption|]. split; [assumption | discriminate].
  - set (p := rev (x :: rparent)).
    assert (Hpre : rev rparent `prefix_of` p) by (subst p; cbn; now apply prefix_app_r).
    pose proof (os_mkdir_frame p st) as (Hj & Ha & Hok).
    destruct (os_mkdir p st) as [[[]|e] st1]; cbn [fst snd] in *; [auto|].
    assert (Hgen : forall e' s,
      jobs s = jobs st -> adds_dirs p (fs st) (fs s) ->
      let out := mkdir_oserror true p e' s in
      jobs out.2 = jobs st /\ adds_dirs p (fs st) (fs out.2) /\
      (out.1 = Ok tt -> is_dir (fs out.2) p = true)).
    { intros e' s Hjs Has. cbv zeta. destruct (mkdir_oserror_frame p e' s) as [-> H]. auto. }
    destruct e; try (now apply Hgen).
    pose proof (IH st1) as (Hj2 & Ha2 & _).
    destruct (mkdir_rev true true rparent st1) as [[[]|e] st2]; cbn [fst snd] in *.
    2: { split; [congruence|]. split; [|discriminate].
         eapply adds_dirs_trans; [|exact Ha|]; [reflexivity|].
         intros q. destruct (Ha2 q) as [H|(H1 & H2 & H3)]; [now left|].
         right. split; [assumption|]. split; [assumption|]. now transitivity (rev rparent). }
    assert (Ha12 : adds_dirs p (fs st) (fs st2)).
    { eapply adds_dirs_trans; [|exact Ha|]; [reflexivity|].
      intros q. destruct (Ha2 q) as [H|(H1 & H2 & H3)]; [now left|].
      right. split; [assumption|]. split; [assumption|]. now transitivity (rev rparent). }
    pose proof (os_mkdir_frame p st2) as (Hj3 & Ha3 & Hok3).
    destruct (os_mkdir p st2) as [[[]|e] st3]; cbn [fst snd] in *.
    + split; [congruence|]. split; [|assumption].
      eapply adds_dirs_trans; [|exact Ha12|exact Ha3]. reflexivity.
    + assert (Ha13 : adds_dirs p (fs st) (fs st3)).
      { eapply adds_dirs_trans; [|exact Ha12|exact Ha3]. reflexivity. }
      destruct e; try (apply Hgen; [congruence | assumption]).
      cbn. split; [congruence|]. split; [assumption | discriminate].
Qed.

(** X11.  The submitter adds at most one job, and none when it raises.
    When it succeeds the login was accepted, the save directory is a
    directory, and the job submitted carries what the torrent file holds at
    that moment, the save directory and the category, with automatic
    management off and the job not paused.  That job is in the list when
    the WebUI answered ["Ok."]; when it answered ["Fails."] the list is as
    before, and the submitter has succeeded all the same, because it does
    not look at the answer. *)
Theorem push_to_qb_jobs E st tp host port user pw sd cat :
  let out := push_to_qb E tp host port user pw sd cat st in
  (forall e, out.1 = Raise e -> jobs out.2 = jobs st) /\
  (out.1 = Ok tt ->
   exists c t,
     node_at (fs out.2) tp = Some (File c t) /\
     is_dir (fs out.2) sd = true /\
     qb_auth E host port user pw = AuthAccepted /\
     match qb_torrents_add E (mkJob c sd cat false false) with
     | AddOk => jobs out.2 = jobs st ++ [mkJob c sd cat false false]
     | AddFails => jobs out.2 = jobs st
     | AddRefused => False
     end).
Proof.
  intros out. subst out.
  unfold push_to_qb, auth_log_in, app_version, app_web_api_version, path_is_dir,
    path_mkdir, open_rb, torrents_add.
  mrun. destruct (qb_auth E host port user pw); mrun.
  2,3: (split; [reflexivity | discriminate]).
  destruct (is_dir (fs st) sd) eqn:Hdir; mrun.
  - destruct (node_at (fs st) tp) as [[c t|]|] eqn:Htp; mrun.
    2,3: (split; [reflexivity | discriminate]).
    destruct (qb_torrents_add E _) eqn:Hadd; mrun.
    3: (split; [reflexivity | discriminate]).
    all: split; [discriminate || reflexivity|]; intros _; exists c, t; rewrite Hadd; auto.
  - match goal with |- context [mkdir_rev true true (rev sd) ?s] => set (st1 := s) end.
    pose proof (mkdir_rev_frame (rev sd) st1) as (Hj & _ & Hok).
    rewrite rev_involutive in Hok.
    destruct (mkdir_rev true true (rev sd) st1) as [[[]|e] st2]; cbn [fst snd] in *.
    2: { split; [|discriminate]. intros _ _. exact Hj. }
    specialize (Hok eq_refl). mrun.
    destruct (node_at (fs st2) tp) as [[c t|]|] eqn:Htp; mrun.
    2,3: (split; [intros _ _; exact Hj | discriminate]).
    destruct (qb_torrents_add E _) eqn:Hadd; mrun.
    3: (split; [intros _ _; exact Hj | discriminate]).
    all: split; [discriminate || (intros _ _; exact Hj)|]; intros _; exists c, t;
      rewrite Hadd, Hj; auto.
Qed.

(** X12.  The submitter never removes or rewrites anything on the
    filesystem: all it may do is add directories, and only at the save
    directory and above it. *)
Theorem push_to_qb_only_adds_dirs E st tp host port user pw sd cat :
  adds_dirs sd (fs st) (fs (push_to_qb E tp host port user pw sd cat st).2).
Proof.
  unfold push_to_qb, auth_log_in, app_version, app_web_api_version, path_is_dir,
    path_mkdir, open_rb, torrents_add.
  mrun. destruct (qb_auth E host port user pw); mrun; try apply adds_dirs_refl.
  destruct (is_dir (fs st) sd) eqn:Hdir; mrun.
  - destruct (node_at (fs st) tp) as [[c t|]|]; mrun; try apply adds_dirs_refl.
    destruct (qb_torrents_add E _); mrun; apply adds_dirs_refl.
  - match goal with |- context [mkdir_rev true true (rev sd) ?s] => set (st1 := s) end.
    pose proof (mkdir_rev_frame (rev sd) st1) as (_ & Ha & _).
    rewrite rev_involutive in Ha. subst st1. sproj.
    destruct (mkdir_rev true true (rev sd) _) as [[[]|e] st2]; cbn [fst snd] in *;
      [|exact Ha].
    mrun. destruct (node_at (fs st2) tp) as [[c t|]|]; mrun; try exact Ha.
    destruct (qb_torrents_add E _); mrun; exact Ha.
Qed.

Lemma mkdir_rev_exists rp st n :
  node_at (fs st) (rev rp) = Some n ->
  mkdir_rev true true rp st = mkdir_oserror true (rev rp) (FileExistsError (rev rp)) st.
Proof.
  intros H. destruct rp; cbn [mkdir_rev]; unfold os_mkdir; now rewrite H.
Qed.

(** X13.  When the save directory's path is taken by a regular file, the
    submitter logs in, finds no directory, and fails in [mkdir] with
    FileExistsError: the torrent file is not read, no job is added, and
    the filesystem is unchanged. *)
Theorem push_to_qb_save_dir_is_file E st tp host port user pw sd cat :
  qb_auth E host port user pw = AuthAccepted ->
  is_file (fs st) sd = true ->
  let out := push_to_qb E tp host port user pw sd cat st in
  out.1 = Raise (FileExistsError sd) /\
  calls out.2 = calls st ++
    [QbAuthLogIn host port user pw; QbAppVersion; QbAppWebApiVersion;
     PathIsDir sd; PathMkdir sd] /\
  jobs out.2 = jobs st /\
  fs out.2 = fs st.
Proof.
  intros Hauth Hfile out. subst out.
  unfold push_to_qb, auth_log_in, app_version, app_web_api_version, path_is_dir,
    path_mkdir.
  mrun. rewrite Hauth. mrun.
  unfold is_file in Hfile. unfold is_dir.
  destruct (node_at (fs st) sd) as [[c t|]|] eqn:Hn; try discriminate. mrun.
  erewrite mkdir_rev_exists by (rewrite rev_involutive; sproj; exact Hn).
  unfold mkdir_oserror, is_dir. rewrite rev_involutive. sproj. rewrite Hn.
  cbn [andb fst snd]. sunf. rewrite <- !app_assoc. repeat split.
Qed.

Lemma push_to_qb_save_dir_is_file_witness :
  qb_auth (web_env [] None) (lit "localhost") 8080 (lit "admin") (lit "adminadmin")
    = AuthAccepted /\
  is_file (fs blocked_state) save_dir_example = true /\
  (push_to_qb (web_env [] None) [lit "tmp"; lit "x.torrent"] (lit "localhost") 8080
     (lit "admin") (lit "adminadmin") save_dir_example (lit "wikipedia") blocked_state).1
    = Raise (FileExistsError save_dir_example).
Proof.
  split; [reflexivity|]. split; [reflexivity|].
  apply (push_to_qb_save_dir_is_file (web_env [] None) blocked_state
           [lit "tmp"; lit "x.torrent"] (lit "localhost") 8080 (lit "admin")
           (lit "adminadmin") save_dir_example (lit "wikipedia") eq_refl eq_refl).
Defined.

(** ** The pruner: retention, repetition, failure, frame *)

Lemma prune_old_dumps_run E st d keep_days :
  is_dir (fs st) d = true ->
  retention_ok (now E) keep_days = true ->
  mtimes_ok (fs st) d ->
  let cutoff := now E - keep_days * microseconds_per_day in
  let removed := filter (fun n => prunable (fs st) d cutoff (d ++ [n]) = true)
                   (listdir (fs st) d) in
  exists st',
    prune_old_dumps E d keep_days st = (Ok tt, st') /\
    (forall p, fs st' !! p = if prunable (fs st) d cutoff p then None else fs st !! p) /\
    jobs st' = jobs st /\
    logged st' = logged st ++ ((fun n => (INFO, MsgRemoving n)) <$> removed) ++
                 [(INFO, MsgPruned (length removed))].
Proof.
  intros Hdir Hret Htimes cutoff removed. subst removed.
  rewrite prune_old_dumps_cutoff, Hret. unfold path_iterdir. fold cutoff. mrun.
  unfold is_dir in Hdir. destruct (node_at (fs st) d) as [[|]|]; try discriminate. mrun.
  destruct (prune_loop_spec d cutoff (fs st) (listdir (fs st) d) Htimes (NoDup_listdir _ _) 0%nat
              (add_call (PathIterdir d) st) (fun _ _ => eq_refl))
    as (st' & -> & Ha & Hb & _ & Hj & Hl).
  cbn beta in *. sproj. unfold add_call in Hb, Hj, Hl. cbn [fs jobs logged] in Hb, Hj, Hl.
  eexists. split; [reflexivity|]. sunf. split; [|split; [assumption|]].
  - intros p. destruct (prunable (fs st) d cutoff p) eqn:Hp.
    + pose proof Hp as (name & c & t & -> & Hnode & _)%prunable_spec.
      apply Ha; [|assumption]. apply elem_of_listdir. eauto.
    + apply Hb. intros n _ Hn ->. congruence.
  - rewrite Hl, <- app_assoc. reflexivity.
Qed.

(** Whatever the loop does, and however it ends, all it changes on the
    filesystem is to remove dumps of the directory older than the cutoff. *)
Lemma prune_loop_removes d c names : forall removed st,
  jobs (prune_loop d c names removed st).2 = jobs st /\
  forall p,
    fs (prune_loop d c names removed st).2 !! p = fs st !! p \/
    (fs (prune_loop d c names removed st).2 !! p = None /\
     exists name b t,
       p = d ++ [name] /\ fs st !! p = Some (File b t) /\
       Re.re_match DUMP_FILE_RE name = true /\ t < c).
Proof.
  induction names as [|n names IH]; intros removed st; cbn [prune_loop].
  { cbn. auto. }
  unfold path_is_file, stat_mtime, path_unlink, datetime_fromtimestamp. mrun.
  unfold is_file. rewrite node_at_nonroot by apply snoc_path_nonroot.
  destruct (fs st !! (d ++ [n])) as [[c0 t0|]|] eqn:Hnode; mrun.
  2,3: apply (IH removed (add_call (PathIsFile (d ++ [n])) st)).
  destruct (Re.re_match DUMP_FILE_RE n) eqn:Hm; mrun.
  2: apply (IH removed (add_call (PathIsFile (d ++ [n])) st)).
  destruct (endswith n (lit ".!qB")); mrun.
  1: apply (IH removed (add_call (PathIsFile (d ++ [n])) st)).
  rewrite node_at_nonroot, Hnode by apply snoc_path_nonroot. mrun.
  destruct (timestamp_ok t0); mrun.
  2: { split; [reflexivity | intros p; now left]. }
  destruct (t0 <? c) eqn:Ht; mrun.
  2: apply (IH removed (add_call (PathStat (d ++ [n])) (add_call (PathIsFile (d ++ [n])) st))).
  rewrite node_at_nonroot, Hnode by apply snoc_path_nonroot. mrun.
  match goal with |- context [prune_loop d c names (S removed) ?s] => set (st4 := s) end.
  destruct (IH (S removed) st4) as [Hj Hf]. subst st4.
  unfold set_fs, add_call, add_log in Hj, Hf. cbn [fs jobs] in Hj, Hf.
  unfold set_fs, add_call, add_log. cbn [fs jobs].
  split; [exact Hj|]. intros p.
  destruct (Hf p) as [H | (H & name & b & t & -> & Hl & Hm' & Ht')].
  - destruct (decide (p = d ++ [n])) as [->|Hne].
    + right. rewrite H, lookup_delete_eq. split; [reflexivity|].
      exists n, c0, t0. apply Z.ltb_lt in Ht. auto.
    + left. rewrite H. now apply lookup_delete_ne.
  - right. split; [assumption|]. exists name, b, t.
    apply lookup_delete_Some in Hl as [_ Hl]. auto.
Qed.

Lemma prune_old_dumps_removes E st d keep_days :
  jobs (prune_old_dumps E d keep_days st).2 = jobs st /\
  forall p,
    fs (prune_old_dumps E d keep_days st).2 !! p = fs st !! p \/
    (fs (prune_old_dumps E d keep_days st).2 !! p = None /\
     exists name b t,
       p = d ++ [name] /\ fs st !! p = Some (File b t) /\
       Re.re_match DUMP_FILE_RE name = true /\
       t < now E - keep_days * microseconds_per_day).
Proof.
  rewrite prune_old_dumps_cutoff. destruct (retention_ok (now E) keep_days); [|cbn; auto].
  unfold path_iterdir. mrun.
  destruct (node_at (fs st) d) as [[|]|]; mrun; [cbn; auto | | cbn; auto].
  pose proof (prune_loop_removes d (now E - keep_days * microseconds_per_day)
                (listdir (fs st) d) 0%nat (add_call (PathIterdir d) st)) as [Hj Hf].
  destruct (prune_loop d _ (listdir (fs st) d) 0 _) as [[r|e] s']; mrun;
    cbn [fst snd fs jobs add_call] in *; auto.
Qed.

(** Two runs of the loop over the same names, the second with the earlier
    cutoff: what the first leaves, the second leaves. *)
Lemma prune_loop_mono d c1 c2 names :
  c2 <= c1 -> NoDup names ->
  forall r1 r2 s1 s2,
    (forall n, n ∈ names -> fs s1 !! (d ++ [n]) = fs s2 !! (d ++ [n])) ->
    (forall p x, fs s1 !! p = Some x -> fs s2 !! p = Some x) ->
    forall p x,
      fs (prune_loop d c1 names r1 s1).2 !! p = Some x ->
      fs (prune_loop d c2 names r2 s2).2 !! p = Some x.
Proof.
  intros Hc Hnd. induction Hnd as [|n names Hn Hnd IH]; intros r1 r2 s1 s2 Hsame Hinc.
  { cbn. exact Hinc. }
  assert (Hrest : forall f1 f2 : gmap path node,
            (forall p, p <> d ++ [n] -> f1 !! p = fs s1 !! p) ->
            (forall p, p <> d ++ [n] -> f2 !! p = fs s2 !! p) ->
            forall n', n' ∈ names -> f1 !! (d ++ [n']) = f2 !! (d ++ [n'])).
  { intros f1 f2 H1 H2 n' Hn'.
    assert (d ++ [n'] <> d ++ [n]) by (intros [= ->]%app_inv_head; contradiction).
    rewrite H1, H2 by assumption. apply Hsame. now right. }
  assert (Hskip : forall r1' r2' s1' s2',
            fs s1' = fs s1 -> fs s2' = fs s2 ->
            forall p x,
              fs (prune_loop d c1 names r1' s1').2 !! p = Some x ->
              fs (prune_loop d c2 names r2' s2').2 !! p = Some x).
  { intros r1' r2' s1' s2' H1 H2. apply IH.
    - intros n' Hn'. rewrite H1, H2. apply Hsame. now right.
    - intros p x. rewrite H1, H2. apply Hinc. }
  cbn [prune_loop]. unfold path_is_file, stat_mtime, path_unlink, datetime_fromtimestamp. mrun.
  unfold is_file. rewrite !node_at_nonroot by apply snoc_path_nonroot.
  rewrite <- (Hsame n) by now left.
  destruct (fs s1 !! (d ++ [n])) as [[c0 t0|]|] eqn:Hnode; mrun.
  2,3: (apply Hskip; reflexivity).
  destruct (Re.re_match DUMP_FILE_RE n); mrun.
  2: (apply Hskip; reflexivity).
  destruct (endswith n (lit ".!qB")); mrun.
  1: (apply Hskip; reflexivity).
  rewrite !node_at_nonroot by apply snoc_path_nonroot.
  rewrite <- (Hsame n) by now left. rewrite Hnode. mrun.
  destruct (timestamp_ok t0); mrun; [|exact Hinc].
  destruct (t0 <? c1) eqn:H1, (t0 <? c2) eqn:H2; mrun.
  - (* both remove the file *)
    rewrite !node_at_nonroot by apply snoc_path_nonroot.
    rewrite <- (Hsame n) by now left. rewrite Hnode. mrun.
    apply IH; sproj.
    + apply Hrest; intros p Hp; now apply lookup_delete_ne.
    + intros p x [Hp Hx]%lookup_delete_Some.
      apply lookup_delete_Some. split; [assumption | now apply Hinc].
  - (* only the run with the later cutoff removes it *)
    rewrite !node_at_nonroot by apply snoc_path_nonroot. rewrite Hnode. mrun.
    apply IH; sproj.
    + apply Hrest; intros p Hp; [now apply lookup_delete_ne | reflexivity].
    + intros p x [Hp Hx]%lookup_delete_Some. now apply Hinc.
  - apply Z.ltb_lt in H2. apply Z.ltb_ge in H1. lia.
  - apply Hskip; reflexivity.
Qed.

(** X14.  A longer retention never removes more: whatever survives a
    pruning with some retention, one for which the pruner gets its cutoff,
    survives it, from the same state, with any retention at least as
    long, however the two runs end. *)
Theorem prune_old_dumps_retention_monotone E st d keep1 keep2 p n :
  retention_ok (now E) keep1 = true ->
  keep1 <= keep2 ->
  fs (prune_old_dumps E d keep1 st).2 !! p = Some n ->
  fs (prune_old_dumps E d keep2 st).2 !! p = Some n.
Proof.
  intros Hret Hk H1.
  assert (H0 : fs st !! p = Some n).
  { destruct (prune_old_dumps_removes E st d keep1) as [_ Hf].
    destruct (Hf p) as [H | [H _]]; congruence. }
  revert H1. rewrite !prune_old_dumps_cutoff, Hret.
  destruct (retention_ok (now E) keep2); [|intros _; exact H0].
  unfold path_iterdir. mrun.
  destruct (node_at (fs st) d) as [[|]|]; mrun; try (intros _; exact H0).
  set (s := add_call (PathIterdir d) st).
  set (c1 := now E - keep1 * microseconds_per_day).
  set (c2 := now E - keep2 * microseconds_per_day).
  intros H1.
  assert (Hm : fs (prune_loop d c1 (listdir (fs st) d) 0 s).2 !! p = Some n).
  { destruct (prune_loop d c1 (listdir (fs st) d) 0 s) as [[r|e] s']; exact H1. }
  apply (prune_loop_mono d c1 c2 (listdir (fs st) d)) with (r2 := 0%nat) (s2 := s) in Hm;
    [| subst c1 c2; unfold microseconds_per_day; lia | apply NoDup_listdir | auto | auto].
  destruct (prune_loop d c2 (listdir (fs st) d) 0 s) as [[r|e] s']; exact Hm.
Qed.

Lemma prune_old_dumps_retention_monotone_witness :
  retention_ok (now (web_env [] None)) 30 = true /\
  30 <= 60 /\
  fs (prune_old_dumps (web_env [] None) [lit "dumps"] 30 dump_dir_state).2
    !! [lit "dumps"; recent_dump] = Some (File [2%N] (days_ago 5)) /\
  fs (prune_old_dumps (web_env [] None) [lit "dumps"] 60 dump_dir_state).2
    !! [lit "dumps"; recent_dump] = Some (File [2%N] (days_ago 5)).
Proof.
  split; [reflexivity|]. split; [lia|]. split; [vm_compute; reflexivity|].
  apply (prune_old_dumps_retention_monotone (web_env [] None) dump_dir_state
           [lit "dumps"] 30 60 _ _ eq_refl); [lia | vm_compute; reflexivity].
Defined.

Lemma filter_none {A} (P : A -> Prop) `{forall x, Decision (P x)} (l : list A) :
  (forall x, x ∈ l -> ~ P x) -> filter P l = [].
Proof.
  intros Hno. destruct (filter P l) as [|x l'] eqn:Hf; [reflexivity|].
  assert (Hx : x ∈ filter P l) by (rewrite Hf; now left).
  apply list_elem_of_filter in Hx as [HP Hin]. now apply Hno in Hin.
Qed.

(** X15.  Pruning again, with the same clock and retention, finds nothing
    left to remove.  On a directory, for a retention that gives a cutoff
    and dumps whose times are datetimes, the second pruning succeeds,
    leaves the filesystem as the first left it, and logs a count of 0. *)
Theorem prune_old_dumps_again E st d keep_days :
  is_dir (fs st) d = true ->
  retention_ok (now E) keep_days = true ->
  mtimes_ok (fs st) d ->
  let once := prune_old_dumps E d keep_days st in
  let twice := prune_old_dumps E d keep_days once.2 in
  twice.1 = Ok tt /\
  fs twice.2 = fs once.2 /\
  last (logged twice.2) = Some (INFO, MsgPruned 0).
Proof.
  intros Hdir Hret Htimes once twice. subst twice once.
  destruct (prune_old_dumps_run E st d keep_days Hdir Hret Htimes) as (s1 & -> & H1 & _).
  cbn [snd]. set (cutoff := now E - keep_days * microseconds_per_day) in *.
  assert (Hnone : forall p, prunable (fs s1) d cutoff p = false).
  { intros p. apply not_true_is_false. intros Hp.
    pose proof Hp as (name & c & t & -> & Hnode & _)%prunable_spec.
    rewrite H1 in Hnode.
    destruct (prunable (fs st) d cutoff (d ++ [name])) eqn:Hp0; [discriminate|].
    rewrite (prunable_agree (fs s1) (fs st)) in Hp by (rewrite H1, Hp0; reflexivity).
    congruence. }
  assert (Hdir1 : is_dir (fs s1) d = true).
  { unfold is_dir in *. destruct d as [|x d]; [reflexivity|]. cbn [node_at] in *.
    rewrite H1. destruct (prunable (fs st) (x :: d) cutoff (x :: d)) eqn:Hp; [|assumption].
    apply prunable_spec in Hp as (name & c & t & _ & Hnode & _).
    now rewrite Hnode in Hdir. }
  assert (Htimes1 : mtimes_ok (fs s1) d).
  { intros name c t Hnode. rewrite H1 in Hnode.
    destruct (prunable (fs st) d cutoff (d ++ [name])); [discriminate|].
    intros Hm. exact (Htimes name c t Hnode Hm). }
  destruct (prune_old_dumps_run E s1 d keep_days Hdir1 Hret Htimes1) as (s2 & -> & H2 & _ & Hl).
  fold cutoff in H2, Hl. cbn [fst snd]. split; [reflexivity|]. split.
  - apply map_eq. intros p. now rewrite H2, Hnone.
  - rewrite filter_none in Hl.
    + rewrite Hl. cbn. now rewrite last_snoc.
    + intros name _. rewrite Hnone. discriminate.
Qed.

Lemma prune_old_dumps_again_witness :
  is_dir (fs dump_dir_state) [lit "dumps"] = true /\
  retention_ok (now (web_env [] None)) 30 = true /\
  mtimes_ok (fs dump_dir_state) [lit "dumps"] /\
  last (logged (prune_old_dumps (web_env [] None) [lit "dumps"] 30
                  (prune_old_dumps (web_env [] None) [lit "dumps"] 30 dump_dir_state).2).2)
    = Some (INFO, MsgPruned 0).
Proof.
  split; [reflexivity|]. split; [reflexivity|]. split; [exact dump_dir_state_times|].
  apply (prune_old_dumps_again (web_env [] None) dump_dir_state [lit "dumps"] 30
           eq_refl eq_refl dump_dir_state_times).
Defined.

(** In a well-formed filesystem the walk to a path meets a regular file
    exactly when an ancestor of the path is one. *)
Lemma under_file_from_complete m (q : path) : fs_wf m ->
  is_file m q = true ->
  forall r1 pre r2, q = pre ++ r1 -> r2 <> [] ->
    under_file_from m pre (r1 ++ r2) = true.
Proof.
  intros Hwf Hq.
  assert (Hanc : forall a, a `prefix_of` q -> a <> q -> is_dir m a = true).
  { intros a Ha Hne.
    assert (Hpar : is_dir m (parent q) = true).
    { unfold is_file in Hq. destruct q as [|x q]; [discriminate|]. cbn [node_at] in Hq.
      destruct (m !! (x :: q)) as [nd|] eqn:Hnd; [|discriminate].
      exact (Hwf _ _ Hnd). }
    apply (wf_ancestors m (parent q) Hwf Hpar).
    destruct q as [|x q _] using rev_ind.
    - apply prefix_nil_inv in Ha. contradiction.
    - rewrite parent_snoc. apply prefix_snoc_cases in Ha as [Ha|Ha]; [assumption | contradiction]. }
  induction r1 as [|y r1 IH]; intros pre r2 Heq Hr2.
  - rewrite app_nil_r in Heq. subst pre. destruct r2 as [|x r2]; [contradiction|].
    cbn [app under_file_from]. unfold is_file in Hq.
    destruct (node_at m q) as [[c t|]|]; [reflexivity | discriminate | discriminate].
  - cbn [app under_file_from].
    assert (Hd : is_dir m pre = true).
    { apply Hanc; [subst q; now apply prefix_app_r|].
      intros Hpq. rewrite <- Hpq in Heq. apply (f_equal length) in Heq.
      rewrite length_app in Heq. cbn [length] in Heq. lia. }
    unfold is_dir in Hd. destruct (node_at m pre) as [[c t|]|]; try discriminate.
    apply IH; [|assumption]. now rewrite <- app_assoc.
Qed.

Lemma under_file_spec m (p : path) : fs_wf m ->
  under_file m p = true <-> exists q, q `prefix_of` p /\ q <> p /\ is_file m q = true.
Proof.
  intros Hwf. split.
  - intros H. unfold under_file in H. revert H.
    assert (Hgen : forall rest pre,
              under_file_from m pre rest = true ->
              exists q, q `prefix_of` pre ++ rest /\ q <> pre ++ rest /\ is_file m q = true).
    { induction rest as [|x rest IH]; intros pre H; [discriminate|].
      cbn [under_file_from] in H.
      destruct (node_at m pre) as [[c t|]|] eqn:Hn; try discriminate.
      - exists pre. split; [now apply prefix_app_r|]. split.
        + intros Heq. apply (f_equal length) in Heq.
          rewrite length_app in Heq. cbn [length] in Heq. lia.
        + unfold is_file. now rewrite Hn.
      - apply IH in H as (q & Hq & Hne & Hf). exists q.
        rewrite <- app_assoc in Hq, Hne. auto. }
    apply (Hgen p []).
  - intros (q & [r2 ->] & Hne & Hf).
    apply (under_file_from_complete m q Hwf Hf q [] r2 eq_refl).
    intros ->. apply Hne. now rewrite app_nil_r.
Qed.

(** X16.  On a path that is not a directory, and with a retention that
    gives a cutoff, the pruner fails while listing the path: with
    NotADirectoryError when the path or one of its ancestors is a regular
    file, with FileNotFoundError otherwise.  That listing is its only
    call, nothing is removed and no count is logged. *)
Theorem prune_old_dumps_no_directory E st d keep_days :
  fs_wf (fs st) ->
  is_dir (fs st) d = false ->
  retention_ok (now E) keep_days = true ->
  let out := prune_old_dumps E d keep_days st in
  (out.1 = Raise (NotADirectoryError d) \/ out.1 = Raise (FileNotFoundError d)) /\
  (out.1 = Raise (NotADirectoryError d) <->
   exists q, q `prefix_of` d /\ is_file (fs st) q = true) /\
  fs out.2 = fs st /\
  logged out.2 = logged st /\
  calls out.2 = calls st ++ [PathIterdir d].
Proof.
  intros Hwf Hdir Hret out. subst out.
  rewrite prune_old_dumps_cutoff, Hret. unfold path_iterdir. mrun.
  unfold is_dir in Hdir.
  destruct (node_at (fs st) d) as [[c t|]|] eqn:Hn; try discriminate; mrun.
  - split; [now left|]. split; [|auto]. split; [|reflexivity].
    intros _. exists d. split; [reflexivity|]. unfold is_file. now rewrite Hn.
  - unfold missing_error. destruct (under_file (fs st) d) eqn:Hu; cbn [fst snd].
    + split; [now left|]. split; [|auto]. split; [|reflexivity].
      intros _. apply under_file_spec in Hu as (q & Hq & _ & Hf); eauto.
    + split; [now right|]. split; [|auto]. split; [discriminate|].
      intros (q & Hq & Hf). exfalso.
      assert (Hu' : under_file (fs st) d = true); [|congruence].
      apply under_file_spec; [assumption|]. exists q. split; [assumption|].
      split; [|assumption]. intros ->. unfold is_file in Hf. now rewrite Hn in Hf.
Qed.

Lemma prune_old_dumps_no_directory_witness :
  fs_wf (fs blocked_state) /\
  is_dir (fs blocked_state) (save_dir_example ++ [lit "old"]) = false /\
  retention_ok (now (web_env [] None)) 30 = true /\
  (prune_old_dumps (web_env [] None) (save_dir_example ++ [lit "old"]) 30 blocked_state).1
    = Raise (NotADirectoryError (save_dir_example ++ [lit "old"])).
Proof.
  assert (Hwf : fs_wf (fs blocked_state)).
  { apply (bool_decide_unpack _). vm_compute. exact I. }
  split; [exact Hwf|]. split; [reflexivity|]. split; [reflexivity|].
  destruct (prune_old_dumps_no_directory (web_env [] None) blocked_state
              (save_dir_example ++ [lit "old"]) 30 Hwf eq_refl eq_refl) as (_ & H & _).
  apply H. exists save_dir_example. split; [now apply prefix_app_r | reflexivity].
Defined.


(** X18.  Every removal is logged.  On a directory, for a retention that
    gives a cutoff and dumps whose times are datetimes, the records the
    pruner adds are one "Removing" record per file removed, each name
    once, followed by the count, which is their number; a name is among
    them exactly when its path was prunable. *)
Theorem prune_old_dumps_log E st d keep_days :
  is_dir (fs st) d = true ->
  retention_ok (now E) keep_days = true ->
  mtimes_ok (fs st) d ->
  let cutoff := now E - keep_days * microseconds_per_day in
  exists names,
    logged (prune_old_dumps E d keep_days st).2 =
      logged st ++ ((fun n => (INFO, MsgRemoving n)) <$> names) ++
      [(INFO, MsgPruned (length names))] /\
    NoDup names /\
    forall name, name ∈ names <-> prunable (fs st) d cutoff (d ++ [name]) = true.
Proof.
  intros Hdir Hret Htimes cutoff.
  destruct (prune_old_dumps_run E st d keep_days Hdir Hret Htimes) as (s1 & -> & _ & _ & Hl).
  fold cutoff in Hl. eexists. split; [exact Hl|]. split.
  - apply NoDup_filter, NoDup_listdir.
  - intros name. rewrite list_elem_of_filter, elem_of_listdir. split; [tauto|].
    intros Hp. split; [assumption|].
    apply prunable_spec in Hp as (n' & c & t & Heq & Hnode & _).
    apply app_inj_tail in Heq as [_ <-]. eauto.
Qed.

Lemma prune_old_dumps_log_witness :
  is_dir (fs dump_dir_state) [lit "dumps"] = true /\
  retention_ok (now (web_env [] None)) 30 = true /\
  mtimes_ok (fs dump_dir_state) [lit "dumps"] /\
  exists names,
    logged (prune_old_dumps (web_env [] None) [lit "dumps"] 30 dump_dir_state).2 =
      logged dump_dir_state ++ ((fun n => (INFO, MsgRemoving n)) <$> names) ++
      [(INFO, MsgPruned (length names))].
Proof.
  split; [reflexivity|]. split; [reflexivity|]. split; [exact dump_dir_state_times|].
  destruct (prune_old_dumps_log (web_env [] None) dump_dir_state [lit "dumps"] 30
              eq_refl eq_refl dump_dir_state_times)
    as (names & H & _).
  exists names. exact H.
Defined.

(** ** Logging levels *)

Lemma logs_same {A} (c : M A) :
  (forall st, loglevel (c st).2 = loglevel st /\ logged (c st).2 = logged st) ->
  logs_info_only c.
Proof.
  intros H st. destruct (H st) as [Hl Hg]. split; [assumption|].
  exists []. rewrite app_nil_r. auto.
Qed.

Lemma logs_ret {A} (a : A) : logs_info_only (ret a).
Proof. now apply logs_same. Qed.

Lemma logs_raise {A} e : logs_info_only (@raise A e).
Proof. now apply logs_same. Qed.

Lemma logs_call c : logs_info_only (call c).
Proof. now apply logs_same. Qed.

Lemma logs_info m : logs_info_only (logging_info m).
Proof. intros st. split; [reflexivity|]. exists [(INFO, m)]. cbn. auto. Qed.

Lemma logs_bind {A B} (c : M A) (f : A -> M B) :
  logs_info_only c -> (forall a, logs_info_only (f a)) -> logs_info_only (bind c f).
Proof.
  intros Hc Hf st. unfold bind. destruct (Hc st) as (L1 & n1 & H1 & F1).
  destruct (c st) as [[a|e] s1]; cbn [snd] in *.
  - destruct (Hf a s1) as (L2 & n2 & H2 & F2). split; [congruence|].
    exists (n1 ++ n2). rewrite H2, H1, app_assoc. split; [reflexivity | now apply Forall_app].
  - split; [assumption|]. now exists n1.
Qed.

Ltac logs_step :=
  first
    [ apply logs_ret | apply logs_raise | apply logs_info | apply logs_call
    | apply logs_bind; [|intros ?]
    | apply logs_same; intros ?;
      repeat match goal with
             | |- context [match ?x with _ => _ end] => destruct x
             end; split; reflexivity ].

Lemma os_mkdir_only_fs p st : exists m', (os_mkdir p st).2 = set_fs (fun _ => m') st.
Proof.
  unfold os_mkdir. destruct (node_at (fs st) p).
  { exists (fs st). now rewrite set_fs_id. }
  destruct (node_at (fs st) (parent p)) as [[|]|];
    first [ now eexists | exists (fs st); now rewrite set_fs_id ].
Qed.

Lemma mkdir_oserror_state ok p e st : (mkdir_oserror ok p e st).2 = st.
Proof. unfold mkdir_oserror. now destruct (ok && is_dir (fs st) p). Qed.

Lemma mkdir_rev_only_fs rp : forall pa ok st,
  exists m', (mkdir_rev pa ok rp st).2 = set_fs (fun _ => m') st.
Proof.
  induction rp as [|x rparent IH]; intros pa ok st; cbn [mkdir_rev].
  - destruct (os_mkdir_only_fs (rev []) st) as [m1 H1].
    destruct (os_mkdir (rev []) st) as [[u|e] st1]; cbn [snd] in *; [eauto|].
    destruct e; try (rewrite mkdir_oserror_state); eauto.
  - destruct (os_mkdir_only_fs (rev (x :: rparent)) st) as [m1 H1].
    destruct (os_mkdir (rev (x :: rparent)) st) as [[u|e] st1]; cbn [snd] in *; [eauto|].
    destruct e; try (rewrite mkdir_oserror_state; eauto).
    destruct pa; cbn [negb]; [|eauto].
    destruct (IH true true st1) as [m2 H2].
    destruct (mkdir_rev true true rparent st1) as [[u|e] st2]; cbn [snd] in *.
    2: { exists m2. now rewrite H2, H1. }
    destruct (os_mkdir_only_fs (rev (x :: rparent)) st2) as [m3 H3].
    destruct (os_mkdir (rev (x :: rparent)) st2) as [[u'|e] st3]; cbn [snd] in *.
    { exists m3. now rewrite H3, H2, H1. }
    destruct e; try (rewrite mkdir_oserror_state); cbn [snd];
      exists m3; now rewrite H3, H2, H1.
Qed.

Lemma logs_latest_torrent_url E : logs_info_only (latest_torrent_url E).
Proof. unfold latest_torrent_url, requests_get. repeat logs_step. Qed.

Lemma logs_write_chunks E fn chunks : logs_info_only (write_chunks E fn chunks).
Proof.
  induction chunks as [|ch chunks IH]; cbn [write_chunks]; [logs_step|].
  unfold file_write. repeat logs_step. exact IH.
Qed.

Lemma logs_download_torrent E url : logs_info_only (download_torrent E url).
Proof.
  unfold download_torrent, requests_get, open_wb, raise_for_status. repeat logs_step.
  apply logs_write_chunks.
Qed.

Lemma logs_push_to_qb E tp host port user pw sd cat :
  logs_info_only (push_to_qb E tp host port user pw sd cat).
Proof.
  unfold push_to_qb, auth_log_in, app_version, app_web_api_version, path_is_dir,
    path_mkdir, open_rb, torrents_add.
  repeat logs_step.
  destruct (negb _); repeat logs_step.
  apply logs_same. intros st.
  destruct (mkdir_rev_only_fs (rev sd) true true st) as [m' ->]. now split.
Qed.

Lemma logs_prune_loop d c names : forall removed, logs_info_only (prune_loop d c names removed).
Proof.
  induction names as [|n names IH]; intros removed; cbn [prune_loop]; [logs_step|].
  unfold path_is_file, stat_mtime, path_unlink, datetime_fromtimestamp. repeat logs_step.
  destruct (negb _); [apply IH|].
  destruct (negb _); [apply IH|].
  destruct (endswith _ _); [apply IH|].
  repeat logs_step.
  destruct (_ <? _); [|apply IH].
  repeat logs_step. apply IH.
Qed.

Lemma logs_prune_old_dumps E d keep : logs_info_only (prune_old_dumps E d keep).
Proof.
  unfold prune_old_dumps, path_iterdir, timedelta_days, datetime_sub. repeat logs_step.
  apply logs_prune_loop.
Qed.

Lemma logs_stages E args : logs_info_only (stages E args).
Proof.
  unfold stages. apply logs_bind; [apply logs_latest_torrent_url | intros url].
  apply logs_bind; [apply logs_download_torrent | intros tp].
  apply logs_bind; [apply logs_push_to_qb | intros _].
  apply logs_prune_old_dumps.
Qed.

(** X19.  The stages log at INFO only.  The logging calls of a run are
    records at INFO, followed, exactly when the run returns 1, by one
    ERROR record, which carries the exception: a run that returns 0 has
    logged nothing above INFO, and no run logs a WARNING. *)
Theorem main_log_levels E args st0 :
  let out := main E args st0 in
  exists infos,
    Forall (fun r => r.1 = INFO) infos /\
    ((out.1 = 0 /\ logged out.2 = logged st0 ++ infos) \/
     (out.1 = 1 /\ exists exc,
        logged out.2 = logged st0 ++ infos ++ [(ERROR, MsgException exc)])).
Proof.
  intros out. subst out. unfold main.
  destruct (logs_stages E args (set_loglevel (if arg_quiet args then WARNING else INFO) st0))
    as (_ & new & Hg & Hinfo).
  cbn [logged set_loglevel] in Hg.
  destruct (stages E args _) as [[u|e] s]; cbn [fst snd] in *; exists new.
  - split; [assumption|]. left. split; [reflexivity | assumption].
  - split; [assumption|]. right. split; [reflexivity|]. exists e.
    unfold logging_error. cbn [snd logged add_log]. now rewrite Hg, <- app_assoc.
Qed.

(** ** main, end to end *)

Lemma latest_torrent_url_frame E st :
  fs (latest_torrent_url E st).2 = fs st /\
  jobs (latest_torrent_url E st).2 = jobs st /\
  logged (latest_torrent_url E st).2 = logged st ++ [(INFO, MsgFetchingIndex)] /\
  calls (latest_torrent_url E st).2 = calls st ++ [RequestsGet META_URL false 30].
Proof.
  unfold latest_torrent_url, requests_get. mrun.
  destruct (http E META_URL); mrun; [|auto].
  destruct (scan_links _); mrun; auto.
Qed.

Lemma push_to_qb_ok E st tp host port user pw sd cat s3 :
  push_to_qb E tp host port user pw sd cat st = (Ok tt, s3) ->
  adds_dirs sd (fs st) (fs s3) /\
  is_dir (fs s3) sd = true /\
  exists c t,
    node_at (fs s3) tp = Some (File c t) /\
    match qb_torrents_add E (mkJob c sd cat false false) with
    | AddOk => jobs s3 = jobs st ++ [mkJob c sd cat false false]
    | AddFails => jobs s3 = jobs st
    | AddRefused => False
    end.
Proof.
  unfold push_to_qb, auth_log_in, app_version, app_web_api_version, path_is_dir,
    path_mkdir, open_rb, torrents_add.
  mrun. destruct (qb_auth E host port user pw); mrun; try discriminate.
  destruct (is_dir (fs st) sd) eqn:Hdir; mrun.
  - destruct (node_at (fs st) tp) as [[c t|]|] eqn:Htp; mrun; try discriminate.
    destruct (qb_torrents_add E _) eqn:Hadd; mrun; [| |discriminate].
    all: intros [= <-]; sproj; split; [apply adds_dirs_refl|]; split; [assumption|];
      exists c, t; rewrite Hadd; auto.
  - match goal with |- context [mkdir_rev true true (rev sd) ?s] => set (st1 := s) end.
    pose proof (mkdir_rev_frame (rev sd) st1) as (Hj & Ha & Hok).
    rewrite rev_involutive in Hok, Ha.
    destruct (mkdir_rev true true (rev sd) st1) as [[[]|e] st2]; cbn [fst snd] in *;
      [|discriminate].
    specialize (Hok eq_refl). mrun.
    destruct (node_at (fs st2) tp) as [[c t|]|] eqn:Htp; mrun; try discriminate.
    destruct (qb_torrents_add E _) eqn:Hadd; mrun; [| |discriminate].
    all: intros [= <-]; sproj; split; [exact Ha|]; split; [assumption|];
      exists c, t; rewrite Hadd, Hj; auto.
Qed.

(** X20.  A run that returns 0 has done this: some URL was resolved and
    answered, the body of the answer is in the temporary directory under
    the URL's last path segment, and is still there after the pruning,
    even when the save directory is the temporary one; the save directory
    exists; and the job carrying that body, the save directory and the
    category was submitted.  It is the one job added when the WebUI
    answered ["Ok."]; when it answered ["Fails."] no job was added, and
    the run has returned 0 all the same. *)
Theorem main_success_end_to_end E args st0 :
  (main E args st0).1 = 0 ->
  exists url r,
    http E url = Some r /\ torrent_link url /\
    fs (main E args st0).2 !! (gettempdir E ++ [basename url])
      = Some (File (content r) (now E)) /\
    is_dir (fs (main E args st0).2) (arg_save_dir args) = true /\
    match qb_torrents_add E
            (mkJob (content r) (arg_save_dir args) (arg_category args) false false) with
    | AddOk =>
        jobs (main E args st0).2 =
        jobs st0 ++ [mkJob (content r) (arg_save_dir args) (arg_category args) false false]
    | AddFails => jobs (main E args st0).2 = jobs st0
    | AddRefused => False
    end.
Proof.
  unfold main. set (st := set_loglevel _ st0).
  destruct (stages E args st) as [[[]|e] s4] eqn:D; cbn [fst snd]; [intros _|discriminate].
  unfold stages, bind in D.
  pose proof (latest_torrent_url_frame E st) as (F1 & J1 & _).
  pose proof (latest_torrent_url_ok E st) as Hmatch.
  destruct (latest_torrent_url E st) as [[url|e] s1]; [|discriminate].
  cbn [fst snd] in *. specialize (Hmatch url eq_refl).
  destruct (torrent_basename_tail url Hmatch) as (bp & x & e & Hb & Hx & He).
  destruct (torrent_tail_not_dots bp x e Hx He) as (N1 & N2 & N3). rewrite <- Hb in N1, N2, N3.
  destruct (http E url) as [r|] eqn:Hr.
  2: { rewrite (download_torrent_no_response E s1 url Hr) in D. discriminate. }
  destruct (can_open_wb (fs s1) (joinpath (gettempdir E) (basename url))) eqn:Hopen.
  2: { destruct (download_torrent_open_fails E s1 url r Hr Hopen) as (e' & He' & _).
       rewrite He' in D. discriminate. }
  rewrite (download_torrent_run E s1 url r Hr Hopen) in D.
  rewrite (joinpath_proper _ _ N1 N2 N3) in D.
  set (tp := gettempdir E ++ [basename url]) in *.
  destruct (http_error_status (status_code r)); [discriminate|].
  match type of D with
  | (let (_, _) := push_to_qb _ _ _ _ _ _ _ _ ?s in _) = _ => set (s2 := s) in D
  end.
  destruct (push_to_qb E tp _ _ _ _ _ _ s2) as [[[]|e3] s3] eqn:D3; [|discriminate].
  apply push_to_qb_ok in D3 as (Ha & Hsd & c & t & Hnode & Hjobs).
  assert (Htp3 : fs s3 !! tp = Some (File (content r) (now E))).
  { destruct (Ha tp) as [H | (H & _)].
    - rewrite H. subst s2. cbn [fs]. apply lookup_insert_eq.
    - subst s2. cbn [fs] in H. now rewrite lookup_insert_eq in H. }
  rewrite node_at_nonroot, Htp3 in Hnode by apply snoc_path_nonroot.
  injection Hnode as <- <-.
  destruct (prune_old_dumps_removes E s3 (arg_save_dir args) (arg_retention args))
    as [Hj4 Hfs].
  rewrite D in Hj4, Hfs. cbn [snd] in Hj4, Hfs.
  exists url, r. split; [exact Hr|]. split; [now apply torrent_search_spec|].
  split; [|split].
  - fold tp. destruct (Hfs tp) as [H | (_ & name & c & t & Heq & _ & Hd & _)]; [congruence|].
    apply app_inj_tail in Heq as [_ <-].
    apply dump_tail in Hd as (pre' & e' & Heq & He').
    rewrite Hb in Heq. destruct (tails_clash _ _ _ _ _ Heq Hx He He').
  - unfold is_dir in *. destruct (arg_save_dir args) as [|y sd]; [reflexivity|].
    cbn [node_at] in *.
    destruct (Hfs (y :: sd)) as [H | (_ & name & c & t & _ & Hn & _)].
    + now rewrite H.
    + now rewrite Hn in Hsd.
  - rewrite Hj4. subst s2. cbn [jobs] in Hjobs. rewrite J1 in Hjobs. exact Hjobs.
Qed.

Lemma main_success_end_to_end_witness :
  (main working_env plain_args fresh_state).1 = 0 /\
  exists url r,
    http working_env url = Some r /\
    jobs (main working_env plain_args fresh_state).2 =
      jobs fresh_state ++
      [mkJob (content r) (arg_save_dir plain_args) (arg_category plain_args) false false].
Proof.
  split; [vm_compute; reflexivity|].
  destruct (main_success_end_to_end working_env plain_args fresh_state)
    as (url & r & H1 & _ & _ & _ & H2); [vm_compute; reflexivity|].
  exists url, r. split; [exact H1 | exact H2].
Defined.

(** The same run against a WebUI that answers ["Fails."]: the exit code
    is 0 and no job was added. *)
Example main_succeeds_without_job :
  let out := main unwilling_env plain_args fresh_state in
  (out.1, jobs out.2, last (logged out.2)) = (0, [], Some (INFO, MsgPruned 0)).
Proof. vm_compute. reflexivity. Qed.

(** X21.  When the index cannot be fetched, or holds no matching link,
    the run stops there: [main] returns 1 after a single request, with the
    filesystem and the job list untouched, and logs the exception after
    the one INFO record of the resolver. *)
Theorem main_resolver_failure E args st0 :
  (forall r, http E META_URL = Some r ->
             scan_links (find_all_a_href (document r)) = None) ->
  let out := main E args st0 in
  out.1 = 1 /\
  fs out.2 = fs st0 /\
  jobs out.2 = jobs st0 /\
  calls out.2 = calls st0 ++ [RequestsGet META_URL false 30] /\
  exists exc,
    logged out.2 = logged st0 ++ [(INFO, MsgFetchingIndex); (ERROR, MsgException exc)] /\
    (exc = RuntimeError NO_LINK_MESSAGE <-> is_Some (http E META_URL)) /\
    (exc = RequestException META_URL <-> http E META_URL = None).
Proof.
  intros Hno out. subst out. unfold main, stages, latest_torrent_url, requests_get. mrun.
  destruct (http E META_URL) as [r|] eqn:Hr; mrun.
  - rewrite (Hno r eq_refl). mrun. sunf. rewrite <- !app_assoc.
    repeat split; try reflexivity.
    eexists. split; [reflexivity|]. split; split; eauto; discriminate.
  - sunf. rewrite <- !app_assoc. repeat split; try reflexivity.
    eexists. split; [reflexivity|]. split; split; try reflexivity; try discriminate.
    intros [? ?]. discriminate.
Qed.

Lemma main_resolver_failure_witness :
  (forall r, http (web_env [anchor (lit "/wiki/Main_Page")] None) META_URL = Some r ->
             scan_links (find_all_a_href (document r)) = None) /\
  (main (web_env [anchor (lit "/wiki/Main_Page")] None) plain_args fresh_state).1 = 1.
Proof.
  assert (H : forall r, http (web_env [anchor (lit "/wiki/Main_Page")] None) META_URL = Some r ->
                        scan_links (find_all_a_href (document r)) = None).
  { intros r [= <-]. reflexivity. }
  split; [exact H|].
  apply (main_resolver_failure (web_env [anchor (lit "/wiki/Main_Page")] None) plain_args
           fresh_state H).
Defined.

(** ** Case *)

Ltac n_cases :=
  repeat match goal with
         | |- context [(?a <=? ?b)%N] => destruct (N.leb_spec a b)
         | |- context [(?a =? ?b)%N] => destruct (N.eqb_spec a b)
         end;
  cbn [andb orb negb]; try reflexivity; try lia.

Lemma tolower_upper x : Re.tolower (ascii_upper x) = Re.tolower x.
Proof.
  unfold ascii_upper.
  destruct (N.leb_spec 0x61 x); cbn [andb]; [|reflexivity].
  destruct (N.leb_spec x 0x7a); [|reflexivity].
  unfold Re.tolower. n_cases.
Qed.

Lemma upper_eqb_uncased c x :
  Re.iscased c = false -> (ascii_upper x =? c)%N = (x =? c)%N.
Proof.
  unfold ascii_upper. intros Hc.
  destruct (N.leb_spec 0x61 x); cbn [andb]; [|reflexivity].
  destruct (N.leb_spec x 0x7a); [|reflexivity].
  unfold Re.iscased in Hc. revert Hc. n_cases; discriminate.
Qed.

Lemma upper_LF x : (ascii_upper x =? LF)%N = (x =? LF)%N.
Proof.
  unfold ascii_upper, LF.
  destruct (N.leb_spec 0x61 x); cbn [andb]; [|reflexivity].
  destruct (N.leb_spec x 0x7a); [|reflexivity].
  n_cases.
Qed.

Lemma letter_not_decimal x :
  (0x41 <= x <= 0x7a)%N -> Re.unicode_isdecimal x = false.
Proof.
  intros Hx. apply not_true_is_false. intros H.
  unfold Re.unicode_isdecimal in H. apply existsb_exists in H as (z & Hin & Hz).
  apply andb_true_iff in Hz as [H1 H2]. apply N.leb_le in H1, H2.
  unfold Re.decimal_zeros in Hin. cbn [In] in Hin.
  repeat (destruct Hin as [<- | Hin]; [lia|]). exact Hin.
Qed.

Lemma upper_decimal x : Re.unicode_isdecimal (ascii_upper x) = Re.unicode_isdecimal x.
Proof.
  unfold ascii_upper.
  destruct (N.leb_spec 0x61 x); cbn [andb]; [|reflexivity].
  destruct (N.leb_spec x 0x7a); [|reflexivity].
  rewrite !letter_not_decimal by lia. reflexivity.
Qed.

Lemma cls_match_upper k x :
  Re.cls_match true k (ascii_upper x) = Re.cls_match true k x.
Proof.
  destruct k as [c| |]; cbn [Re.cls_match].
  - unfold Re.lit_match. cbn [andb]. destruct (Re.iscased c) eqn:Hc.
    + now rewrite tolower_upper.
    + now apply upper_eqb_uncased.
  - now rewrite upper_LF.
  - apply upper_decimal.
Qed.

Lemma at_end_upper s : Re.at_end (ascii_upper <$> s) = Re.at_end s.
Proof.
  destruct s as [|x [|y s]]; cbn; [reflexivity| |reflexivity].
  apply upper_LF.
Qed.

Lemma star_from_upper ok rest s :
  (forall x, ok (ascii_upper x) = ok x) ->
  (forall t, rest (ascii_upper <$> t) = rest t) ->
  Re.star_from ok rest (ascii_upper <$> s) = Re.star_from ok rest s.
Proof.
  intros Hok Hrest. induction s as [|x s IH]; [reflexivity|].
  rewrite fmap_cons. cbn [Re.star_from].
  rewrite Hok, IH, <- (Hrest (x :: s)). reflexivity.
Qed.

Lemma match_items_upper p : forall s,
  Re.match_items true p (ascii_upper <$> s) = Re.match_items true p s.
Proof.
  induction p as [|i p IH]; intros s; [reflexivity|].
  destruct i as [k|k|]; cbn [Re.match_items].
  - destruct s as [|x s]; [reflexivity|]. rewrite fmap_cons.
    now rewrite cls_match_upper, IH.
  - apply star_from_upper; [apply cls_match_upper | exact IH].
  - now rewrite at_end_upper, IH.
Qed.

Lemma search_items_upper p s :
  Re.search_items true p (ascii_upper <$> s) = Re.search_items true p s.
Proof.
  induction s as [|x s IH]; [reflexivity|].
  rewrite fmap_cons. cbn [Re.search_items].
  rewrite IH, <- (match_items_upper p (x :: s)). reflexivity.
Qed.

(** X22.  Both patterns ignore the case of ASCII letters: capitalising
    the letters of a href or of a file name never changes whether the
    torrent pattern accepts the one or the dump pattern matches the
    other. *)
Theorem patterns_ignore_ascii_case s :
  Re.re_search TORRENT_NAME_RE (ascii_upper <$> s) = Re.re_search TORRENT_NAME_RE s /\
  Re.re_match DUMP_FILE_RE (ascii_upper <$> s) = Re.re_match DUMP_FILE_RE s.
Proof.
  split.
  - apply search_items_upper.
  - apply match_items_upper.
Qed.

(** ** The sign of the retention *)

(** X23.  The retention is not checked for its sign.  With a retention
    of zero or more no file is ever removed whose modification time is not
    before the present moment, however the run ends.  With a negative one
    the cutoff lies in the future: on a directory, when that cutoff is a
    datetime and so are the times of the dumps, a dump written at this
    very moment is removed. *)
Theorem prune_old_dumps_retention_sign E st d keep_days :
  let out := prune_old_dumps E d keep_days st in
  (0 <= keep_days ->
   forall p c t, fs st !! p = Some (File c t) -> now E <= t ->
                 fs out.2 !! p = Some (File c t)) /\
  (keep_days < 0 ->
   is_dir (fs st) d = true ->
   retention_ok (now E) keep_days = true ->
   mtimes_ok (fs st) d ->
   forall name c, fs st !! (d ++ [name]) = Some (File c (now E)) ->
                  Re.re_match DUMP_FILE_RE name = true ->
                  fs out.2 !! (d ++ [name]) = None).
Proof.
  intros out. subst out. split.
  - intros Hk p c t Hp Ht.
    destruct (prune_old_dumps_removes E st d keep_days) as [_ Hf].
    destruct (Hf p) as [H | (_ & name & c' & t' & _ & Hn & _ & Hlt)]; [congruence|].
    rewrite Hp in Hn. injection Hn as <- <-. unfold microseconds_per_day in Hlt. lia.
  - intros Hk Hdir Hret Htimes name c Hp Hm.
    destruct (prune_old_dumps_run E st d keep_days Hdir Hret Htimes) as (s1 & -> & H1 & _).
    cbn [snd]. rewrite H1.
    assert (Hpr : prunable (fs st) d (now E - keep_days * microseconds_per_day)
                    (d ++ [name]) = true).
    { apply prunable_spec. exists name, c, (now E). repeat split; try assumption.
      - destruct (endswith name (lit ".!qB")) eqn:He; [|reflexivity].
        apply marker_not_dump in He. congruence.
      - unfold microseconds_per_day. lia. }
    now rewrite Hpr.
Qed.

Lemma just_written_state_times : mtimes_ok (fs just_written_state) [lit "dumps"].
Proof. apply mtimes_ok_all. apply (bool_decide_unpack _). vm_compute. exact I. Defined.

Lemma prune_old_dumps_retention_sign_witness :
  -1 < 0 /\
  is_dir (fs just_written_state) [lit "dumps"] = true /\
  retention_ok (now (web_env [] None)) (-1) = true /\
  mtimes_ok (fs just_written_state) [lit "dumps"] /\
  fs just_written_state !! ([lit "dumps"] ++ [recent_dump])
    = Some (File [2%N] (now (web_env [] None))) /\
  Re.re_match DUMP_FILE_RE recent_dump = true /\
  fs (prune_old_dumps (web_env [] None) [lit "dumps"] (-1) just_written_state).2
    !! ([lit "dumps"] ++ [recent_dump]) = None.
Proof.
  split; [lia|]. split; [reflexivity|]. split; [reflexivity|].
  split; [exact just_written_state_times|]. split; [reflexivity|].
  split; [vm_compute; reflexivity|].
  apply (proj2 (prune_old_dumps_retention_sign (web_env [] None) just_written_state
                  [lit "dumps"] (-1)) ltac:(lia) eq_refl eq_refl just_written_state_times
           recent_dump [2%N] eq_refl).
  vm_compute. reflexivity.
Defined.

(** ** Instances *)

Lemma download_torrent_frame_witness :
  [lit "tmp"] <> joinpath (gettempdir (web_env [] (Some not_found))) (basename torrent_url) /\
  fs (download_torrent (web_env [] (Some not_found)) torrent_url stale_state).2
    !! [lit "tmp"] = fs stale_state !! [lit "tmp"].
Proof.
  assert (H : [lit "tmp"] <>
              joinpath (gettempdir (web_env [] (Some not_found))) (basename torrent_url)).
  { apply (bool_decide_unpack _). vm_compute. exact I. }
  split; [exact H|].
  apply (proj2 (download_torrent_frame (web_env [] (Some not_found)) stale_state torrent_url)
           [lit "tmp"] H).
Defined.

Lemma push_to_qb_jobs_witness :
  (push_to_qb (web_env [] None) [lit "tmp"; lit "x.torrent"] (lit "localhost") 8080
     (lit "admin") (lit "adminadmin") save_dir_example (lit "wikipedia") ready_state).1
    = Ok tt /\
  exists c t,
    node_at (fs (push_to_qb (web_env [] None) [lit "tmp"; lit "x.torrent"] (lit "localhost")
                   8080 (lit "admin") (lit "adminadmin") save_dir_example (lit "wikipedia")
                   ready_state).2) [lit "tmp"; lit "x.torrent"] = Some (File c t) /\
    qb_torrents_add (web_env [] None) (mkJob c save_dir_example (lit "wikipedia") false false)
      = AddOk /\
    jobs (push_to_qb (web_env [] None) [lit "tmp"; lit "x.torrent"] (lit "localhost")
            8080 (lit "admin") (lit "adminadmin") save_dir_example (lit "wikipedia")
            ready_state).2 =
      jobs ready_state ++ [mkJob c save_dir_example (lit "wikipedia") false false].
Proof.
  assert (H : (push_to_qb (web_env [] None) [lit "tmp"; lit "x.torrent"] (lit "localhost")
                 8080 (lit "admin") (lit "adminadmin") save_dir_example (lit "wikipedia")
                 ready_state).1 = Ok tt) by (vm_compute; reflexivity).
  split; [exact H|].
  destruct (proj2 (push_to_qb_jobs (web_env [] None) ready_state [lit "tmp"; lit "x.torrent"]
                     (lit "localhost") 8080 (lit "admin") (lit "adminadmin")
                     save_dir_example (lit "wikipedia")) H)
    as (c & t & H1 & _ & _ & H2).
  exists c, t. split; [exact H1|]. split; [reflexivity | exact H2].
Defined.

